(** * Executors of prefect.engine.executors.dask

    A shallow embedding of [src/prefect/engine/executors/dask.py]: the two
    adapter classes [DaskExecutor] and [SynchronousExecutor], together with a
    small executable model of the parts of Python and of the dask /
    distributed libraries that their methods call. *)

From stdpp Require Import base option list gmap strings.
From Stdlib Require Import ZArith.

#[local] Set Warnings "-register-all".
#[local] Open Scope string_scope.
#[local] Open Scope list_scope.
#[local] Open Scope nat_scope.
#[local] Open Scope stdpp_scope.

(** ** Python values *)

(** Exceptions that the modelled code and its collaborators raise. *)
Inductive exn :=
| AttributeError
| TypeError
| ValueError
| CancelledError
| ConnectionError
| TimeoutError
| TaskError (msg : string).

Inductive result (A : Type) :=
| Ok (a : A)
| Raise (e : exn).
Arguments Ok {A} a.
Arguments Raise {A} e.

Definition rbind {A B} (r : result A) (k : A → result B) : result B :=
  match r with
  | Ok a => k a
  | Raise e => Raise e
  end.

Notation "'let?' x ':=' r 'in' k" := (rbind r (λ x, k))
  (at level 10, x pattern, r at level 100, k at level 200).

Definition is_Ok {A} (r : result A) : Prop := ∃ a, r = Ok a.
Definition is_Raise {A} (r : result A) : Prop := ∃ e, r = Raise e.

Definition rmapM {A B} (f : A → result B) : list A → result (list B) :=
  fix go xs :=
    match xs with
    | [] => Ok []
    | x :: rest =>
        let? y := f x in
        let? ys := go rest in
        Ok (y :: ys)
    end.

(** Task keys. dask names a task either by a fresh [uuid4] (an impure call) or
    by a token hashed from the function and its arguments (a pure call). *)
Inductive key :=
| Uuid (n : nat)
| Token (h : nat).

#[global] Instance key_eq_dec : EqDecision key.
Proof. solve_decision. Defined.

#[global] Instance key_countable : Countable key :=
  inj_countable'
    (λ k, match k with Uuid n => inl n | Token h => inr h end)
    (λ s, match s with inl n => Uuid n | inr h => Token h end)
    (λ k, match k with Uuid _ | Token _ => eq_refl end).

(** A function reference, identified by its qualified name. *)
Definition func := string.

(** Python objects. Dictionaries are keyed by an edge key: [Some k] for a
    keyed edge, [None] for Python's [None]. [PDelayed], [PBagFromDelayed] and
    [PBagMap] are the lazy nodes of dask (a call of [dask.delayed(f)] on
    positional and keyword arguments, [dask.bag.from_delayed(d)], and
    [dask.bag.map] of [f] over positional and keyword arguments);
    [PFuture] is a [distributed.Future]. *)
Inductive obj :=
| PNone
| PInt (z : Z)
| PStr (s : string)
| PList (xs : list obj)
| PTuple (xs : list obj)
| PDict (d : gmap (option string) obj)
| PFuture (k : key)
| PDelayed (k : key) (f : func) (args : list obj) (kwargs : gmap (option string) obj)
| PBagFromDelayed (d : obj)
| PBagMap (f : func) (args : list obj) (kwargs : gmap (option string) obj).

Abbreviation dict := (gmap (option string) obj).

(** [isinstance(v, dask.bag.Bag)] *)
Definition is_Bag (v : obj) : bool :=
  match v with
  | PBagFromDelayed _ | PBagMap _ _ _ => true
  | _ => false
  end.

Definition key_obj (k : option string) : obj :=
  match k with
  | Some s => PStr s
  | None => PNone
  end.

(** [list(o)]: the elements of a list or tuple, the characters of a string,
    the keys of a dictionary (in the order of the finite map). Integers,
    [None], futures and [Delayed] objects are not iterable. Iterating a bag
    would compute it; that is left out and raises here as well. *)
Definition py_list (o : obj) : result (list obj) :=
  match o with
  | PList xs | PTuple xs => Ok xs
  | PStr s => Ok ((λ c, PStr (String c EmptyString)) <$> String.list_ascii_of_string s)
  | PDict d => Ok (key_obj <$> (map_to_list d).*1)
  | _ => Raise TypeError
  end.

(** [xs + o] with a list on the left: only a list can be concatenated to it.
    (A [Delayed] on the right would build a lazy sum instead of raising; that
    is left out.) *)
Definition py_list_add (xs : list obj) (o : obj) : result obj :=
  match o with
  | PList ys => Ok (PList (xs ++ ys))
  | _ => Raise TypeError
  end.

(** [d.pop(None, [])]: the value and the dictionary that remains. *)
Definition pop_None (d : dict) : obj * dict :=
  (default (PList []) (d !! None), delete None d).

(** [d.update(e)]: the entries of [e] override those of [d]. *)
Definition update (d e : dict) : dict := e ∪ d.

(** Unpacking [d] as keyword arguments: keywords must be strings. *)
Definition as_kwargs (d : dict) : result dict :=
  match d !! None with
  | Some _ => Raise TypeError
  | None => Ok d
  end.

(** Truth value of an object in an [if]. A [Delayed] refuses to be tested. *)
Definition py_truthy (o : obj) : result bool :=
  match o with
  | PNone => Ok false
  | PInt z => Ok (negb (z =? 0)%Z)
  | PStr s => Ok (negb (String.length s =? 0)%nat)
  | PList xs | PTuple xs => Ok (negb (length xs =? 0)%nat)
  | PDict d => Ok (negb (size d =? 0)%nat)
  | PDelayed _ _ _ _ => Raise TypeError
  | PFuture _ | PBagFromDelayed _ | PBagMap _ _ _ => Ok true
  end.

(** ** The process state *)

(** One unit of work: a function reference with its positional and keyword
    arguments. The same record serves as an entry of the call log. *)
Record task := Task {
  t_fn : func;
  t_args : list obj;
  t_kwargs : dict }.

(** What the modelled code can observe and change outside its own arguments:
    the supply of [uuid4] values, the caller's clock (in ticks), the open
    client sessions, the tasks and results held by the cluster scheduler, the
    memo table of the local engine during one [dask.compute], and the log of
    the function calls that were really executed. A result is stored with the
    tick at which it becomes available. *)
Record world := World {
  w_uuid : nat;
  w_now : nat;
  w_sessions : gset nat;
  w_next_session : nat;
  w_tasks : gmap key task;
  w_results : gmap key (nat * result obj);
  w_cache : gmap key obj;
  w_log : list task }.

Definition world0 : world := World 0 0 ∅ 0 ∅ ∅ ∅ [].

Definition set_uuid (n : nat) (w : world) : world :=
  World n (w_now w) (w_sessions w) (w_next_session w) (w_tasks w)
        (w_results w) (w_cache w) (w_log w).
Definition set_now (t : nat) (w : world) : world :=
  World (w_uuid w) t (w_sessions w) (w_next_session w) (w_tasks w)
        (w_results w) (w_cache w) (w_log w).
Definition set_sessions (s : gset nat) (n : nat) (w : world) : world :=
  World (w_uuid w) (w_now w) s n (w_tasks w) (w_results w) (w_cache w) (w_log w).
Definition set_cache (c : gmap key obj) (w : world) : world :=
  World (w_uuid w) (w_now w) (w_sessions w) (w_next_session w) (w_tasks w)
        (w_results w) c (w_log w).
Definition add_log (c : task) (w : world) : world :=
  World (w_uuid w) (w_now w) (w_sessions w) (w_next_session w) (w_tasks w)
        (w_results w) (w_cache w) (w_log w ++ [c]).
Definition add_task (k : key) (t : task) (r : nat * result obj) (w : world) : world :=
  World (w_uuid w) (w_now w) (w_sessions w) (w_next_session w)
        (<[k := t]> (w_tasks w)) (<[k := r]> (w_results w)) (w_cache w) (w_log w).

(** Computations that may raise and that thread the process state. *)
Definition M (A : Type) : Type := world → result A * world.

Definition ret {A} (a : A) : M A := λ w, (Ok a, w).
Definition raise {A} (e : exn) : M A := λ w, (Raise e, w).
Definition lift {A} (r : result A) : M A := λ w, (r, w).
Definition bind {A B} (m : M A) (k : A → M B) : M B :=
  λ w, match m w with
       | (Ok a, w') => k a w'
       | (Raise e, w') => (Raise e, w')
       end.

Notation "'let*' x ':=' m 'in' k" := (bind m (λ x, k))
  (at level 10, x pattern, m at level 100, k at level 200).

Definition mapM {A B} (f : A → M B) : list A → M (list B) :=
  fix go xs :=
    match xs with
    | [] => ret []
    | x :: rest =>
        let* y := f x in
        let* ys := go rest in
        ret (y :: ys)
    end.

(** Monadic traversal of the values of a dictionary. *)
Definition dict_mapM {A B} (f : A → M B) (d : gmap (option string) A) :
    M (gmap (option string) B) :=
  map_fold (λ k v (acc : M (gmap (option string) B)),
              let* d' := acc in
              let* v' := f v in
              ret (<[k := v']> d'))
           (ret ∅) d.

Definition dict_rmapM {A B} (f : A → result B) (d : gmap (option string) A) :
    result (gmap (option string) B) :=
  map_fold (λ k v (acc : result (gmap (option string) B)),
              let? d' := acc in
              let? v' := f v in
              Ok (<[k := v']> d'))
           (Ok ∅) d.

Fixpoint list_max (l : list nat) : nat :=
  match l with
  | [] => 0
  | x :: rest => x `max` list_max rest
  end.

(** ** The cluster backend (dask.distributed)

    The workers are not modelled as separate processes. A task is run when
    it is submitted, on arguments resolved against the results that the
    scheduler holds, and its outcome is stored together with the tick at
    which a worker would have it ready; the client only sees outcomes
    through [gather], which waits for that tick. *)

(** The futures that occur in an object, at any depth of lists, tuples and
    dictionaries. *)
Fixpoint futures_of (o : obj) : list key :=
  match o with
  | PFuture k => [k]
  | PList xs | PTuple xs => foldr (λ x acc, futures_of x ++ acc) [] xs
  | PDict d => map_fold (λ _ v acc, futures_of v ++ acc) [] d
  | _ => []
  end.

(** Replaces every future of an object by its stored outcome; the first
    failed one raises its exception. A future that the scheduler does not
    know raises [CancelledError]. *)
Fixpoint resolve (store : gmap key (nat * result obj)) (o : obj) : result obj :=
  match o with
  | PFuture k =>
      match store !! k with
      | Some (_, r) => r
      | None => Raise CancelledError
      end
  | PList xs => let? ys := rmapM (resolve store) xs in Ok (PList ys)
  | PTuple xs => let? ys := rmapM (resolve store) xs in Ok (PTuple ys)
  | PDict d => let? d' := dict_rmapM (resolve store) d in Ok (PDict d')
  | _ => Ok o
  end.

(** The tick at which the outcome of a future is available. *)
Definition ready_at (store : gmap key (nat * result obj)) (k : key) : nat :=
  match store !! k with
  | Some (t, _) => t
  | None => 0
  end.

Definition ready_all (store : gmap key (nat * result obj)) (o : obj) : nat :=
  list_max (ready_at store <$> futures_of o).

(** A [distributed.Client]: a handle on one session with the scheduler. *)
Record Client := mkClient { session : nat }.

Definition is_open (cl : Client) (w : world) : bool :=
  bool_decide (session cl ∈ w_sessions w).

(** The collaborators that the executors only call: the meaning of the
    functions that tasks run, dask's hashing of calls, and the network. *)
Record env := Env {
  (** running a function on its arguments: the ticks it takes, its outcome *)
  apply_fn : func → list obj → dict → nat * result obj;
  (** dask's deterministic hash of a call *)
  tokenize : func → list obj → dict → nat;
  (** whether a scheduler can be reached (or started, for no address) *)
  reachable : option string → bool }.

Section Backend.
Variable E : env.

(** [Client(address, processes=processes)] *)
Definition Client_new (address : option string) (processes : bool) : M Client :=
  λ w, if reachable E address
       then let id := w_next_session w in
            (Ok (mkClient id), set_sessions ({[id]} ∪ w_sessions w) (S id) w)
       else (Raise ConnectionError, w).

(** Leaving the [with Client(...)] block closes the session. *)
Definition Client_close (cl : Client) (w : world) : world :=
  set_sessions (w_sessions w ∖ {[session cl]}) (w_next_session w) w.

(** Runs a task on a worker: its arguments are resolved first, a failed
    dependency fails the task without running it. The outcome is stored
    with the tick at which it is ready. *)
Definition run_task (k : key) (t : task) (w : world) : world :=
  let start := w_now w `max` ready_all (w_results w) (PList (PDict (t_kwargs t) :: t_args t)) in
  match resolve (w_results w) (PList (t_args t)),
        resolve (w_results w) (PDict (t_kwargs t)) with
  | Ok (PList args), Ok (PDict kwargs) =>
      let '(ticks, out) := apply_fn E (t_fn t) args kwargs in
      add_log (Task (t_fn t) args kwargs) (add_task k t (start + ticks, out) w)
  | Raise e, _ | _, Raise e => add_task k t (start, Raise e) w
  | _, _ => add_task k t (start, Raise TypeError) w
  end.

(** [client.submit(fn, *args, pure=pure, **kwargs)]. The arguments are
    pickled when the task is sent, so the task holds them as they are at
    this moment. A pure call is keyed by its token and a key the scheduler
    already holds is not run again; an impure call gets a fresh key. Here
    [kwargs] are the keyword arguments of [fn] only. *)
Definition Client_submit (cl : Client) (fn : func) (args : list obj)
    (kwargs : dict) (pure : bool) : M obj :=
  λ w, if negb (is_open cl w) then (Raise ConnectionError, w)
       else if pure then
         let k := Token (tokenize E fn args kwargs) in
         match w_tasks w !! k with
         | Some _ => (Ok (PFuture k), w)
         | None => (Ok (PFuture k), run_task k (Task fn args kwargs) w)
         end
       else
         let k := Uuid (w_uuid w) in
         (Ok (PFuture k), run_task k (Task fn args kwargs) (set_uuid (S (w_uuid w)) w)).

(** [client.gather(futures)]: blocks until every future of the collection
    is ready and returns the collection with each future replaced by its
    value, re-raising the exception of a failed task. The optional timeout
    is that of the backend contract ("gather(session, handles, timeout?),
    failing on timeout"): with it, the call gives up with [TimeoutError]
    after that many ticks. *)
Definition Client_gather (cl : Client) (futures : obj) (timeout : option nat) : M obj :=
  λ w, if negb (is_open cl w) then (Raise ConnectionError, w)
       else
         let ready := ready_all (w_results w) futures in
         match timeout with
         | Some t =>
             if (w_now w + t <? ready)%nat
             then (Raise TimeoutError, set_now (w_now w + t) w)
             else (resolve (w_results w) futures, set_now (w_now w `max` ready) w)
         | None => (resolve (w_results w) futures, set_now (w_now w `max` ready) w)
         end.
End Backend.

(** ** Helpers of prefect.utilities.executors

    [dask.py] imports four helpers that are defined in another module. The
    two that it calls itself are taken as parameters; the two that it only
    hands to dask as function references are names whose meaning is given by
    [apply_fn]. *)
Record helpers := Helpers {
  (** [dict_to_list(maps)]: one dictionary per mapped element *)
  dict_to_list : option dict → result (list dict);
  (** [create_bagged_list(mapped, unmapped)]: a bag of non-keyed rows *)
  create_bagged_list : obj → obj → M obj }.

Definition state_to_list : func := "state_to_list".
Definition unpack_dict_to_bag : func := "unpack_dict_to_bag".

(** ** DaskExecutor *)

Module DaskExecutor.

(** The attributes of an instance. [client] is [None] outside of [start]. *)
Record executor := Executor {
  address : option string;
  processes : bool;
  kwargs : dict;
  client : option Client }.

(** [__init__(self, address=None, processes=False, **kwargs)] *)
Definition init (address : option string) (processes : bool) (kwargs : dict) : executor :=
  Executor address processes kwargs None.

Definition set_client (c : option Client) (self : executor) : executor :=
  Executor (address self) (processes self) (kwargs self) c.

Section Methods.
Variable E : env.
Variable H : helpers.

(** [start], a context manager, applied to the body of the caller's
    [with] block. The body receives the client and the executor and may
    raise; whatever happens, the [with Client(...)] block closes the
    session and the [finally] clause clears [self.client]. The result is
    the outcome of the body (or of the failed connection), the executor
    and the process state after the scope. *)
Definition start {A} (self : executor)
    (body : Client → executor → world → result A * executor * world)
    (w : world) : result A * executor * world :=
  match Client_new E (address self) (processes self) w with
  | (Ok cl, w1) =>
      let self1 := set_client (Some cl) self in
      let '(r, self2, w2) := body cl self1 w1 in
      let w3 := Client_close cl w2 in
      (r, set_client None self2, w3)
  | (Raise e, w1) => (Raise e, set_client None self, w1)
  end.

(** The loop of [mapper]. [upstream_states] is one dictionary, updated in
    place by every iteration; each [client.submit] receives it as it is
    at that moment. The nested client submits with the default
    [pure=True]. *)
Fixpoint mapper_loop (client : Client) (fn : func) (args : list obj)
    (kwargs : dict) (non_keyed : obj) (states : list dict)
    (upstream_states : dict) (futures : list obj) : M (list obj * dict) :=
  match states with
  | [] => ret (futures, upstream_states)
  | elem :: rest =>
      let upstream_states := update upstream_states elem in
      let* cur := lift (py_list (default (PList []) (upstream_states !! None))) in
      let* new := lift (py_list_add cur non_keyed) in
      let upstream_states := <[None := new]> upstream_states in
      let* fut := Client_submit E client fn args
                    (<[Some "upstream_states" := PDict upstream_states]> kwargs) true in
      mapper_loop client fn args kwargs non_keyed rest upstream_states (futures ++ [fut])
  end.

(** [mapper(maps, fn, *args, upstream_states, **kwargs)], the body of the
    fan-out organizer. Besides the list of futures that the Python
    function returns, the final content of the [upstream_states]
    dictionary it was given is returned. *)
Definition mapper (client : Client) (maps : option dict) (fn : func)
    (args : list obj) (upstream_states : option dict) (kwargs : dict) :
    M (list obj * dict) :=
  match upstream_states with
  | None => raise AttributeError
  | Some upstream_states =>
      let '(non_keyed, upstream_states) := pop_None upstream_states in
      let* states := lift (dict_to_list H maps) in
      mapper_loop client fn args kwargs non_keyed states upstream_states []
  end.

(** [map(self, fn, *args, maps=None, upstream_states=None, **kwargs)].
    The organizer task runs [mapper] on a worker, on unpickled copies of
    the arguments; [gather] on its future re-raises the exception of
    [mapper] or returns its list of futures. *)
Definition map (self : executor) (fn : func) (args : list obj)
    (maps upstream_states : option dict) (kwargs : dict) : M obj :=
  match client self with
  | None => raise AttributeError
  | Some cl =>
      λ w, if negb (is_open cl w) then (Raise ConnectionError, w)
           else match mapper cl maps fn args upstream_states kwargs w with
                | (Ok (futures, _), w') => (Ok (PList futures), w')
                | (Raise e, w') => (Raise e, w')
                end
  end.

(** [submit(self, fn, *args, **kwargs)]: [pure=False] is passed on. *)
Definition submit (self : executor) (fn : func) (args : list obj)
    (kwargs : dict) : M obj :=
  match client self with
  | None => raise AttributeError
  | Some cl => Client_submit E cl fn args kwargs false
  end.

(** [wait(self, futures, timeout=None)]: [gather] is called without the
    timeout. *)
Definition wait (self : executor) (futures : obj) (timeout : option nat) : M obj :=
  match client self with
  | None => raise AttributeError
  | Some cl => Client_gather cl futures None
  end.
End Methods.
End DaskExecutor.

(** ** The local engine (dask.delayed, dask.bag, dask.compute) *)

(** An argument of [dask.bag.map]: a bag contributes one value per row, any
    other argument is repeated for every row. *)
Inductive operand :=
| Rows (xs : list obj)
| Scalar (v : obj).

Definition pick (i : nat) (a : operand) : obj :=
  match a with
  | Rows xs => default PNone (xs !! i)
  | Scalar v => v
  end.

Definition row_counts (args : list operand) (kwargs : gmap (option string) operand) : list nat :=
  omap (λ a, match a with Rows xs => Some (length xs) | Scalar _ => None end)
       (args ++ (map_to_list kwargs).*2).

Section Local.
Variable E : env.

(** Calling [dask.delayed(f)] on arguments: a lazy node. The call is
    impure unless asked otherwise, so its key is a fresh uuid. Here
    [kwargs] are the keyword arguments of [f] only. *)
Definition Delayed_call (f : func) (args : list obj) (kwargs : dict) (pure : bool) : M obj :=
  λ w, if pure then (Ok (PDelayed (Token (tokenize E f args kwargs)) f args kwargs), w)
       else (Ok (PDelayed (Uuid (w_uuid w)) f args kwargs), set_uuid (S (w_uuid w)) w).

(** [dask.bag.map(f, *args, **kwargs)]: at least one argument is a bag. *)
Definition bag_map (f : func) (args : list obj) (kwargs : dict) : result obj :=
  if existsb is_Bag args || existsb is_Bag (map_to_list kwargs).*2
  then Ok (PBagMap f args kwargs)
  else Raise ValueError.

(** Runs a function in the calling process: the clock advances by the
    ticks it takes and the call is logged. *)
Definition call_fn (f : func) (args : list obj) (kwargs : dict) : M obj :=
  λ w, let '(ticks, out) := apply_fn E f args kwargs in
       (out, add_log (Task f args kwargs) (set_now (w_now w + ticks) w)).

(** Evaluation of a collection by the synchronous scheduler. Lists, tuples
    and dictionaries are traversed; a [Delayed] node runs once per key (the
    memo table) after its arguments; a bag evaluates to the list of its
    rows. [dask.bag.map] zips its bag arguments, computes those that are
    [Delayed] and passes every other argument as it is; bags of different
    lengths are refused. Only [Delayed] nodes are memoized: a bag is
    evaluated wherever it occurs. *)
Fixpoint compute_obj (o : obj) : M obj :=
  match o with
  | PList xs => let* ys := mapM compute_obj xs in ret (PList ys)
  | PTuple xs => let* ys := mapM compute_obj xs in ret (PTuple ys)
  | PDict d => let* d' := dict_mapM compute_obj d in ret (PDict d')
  | PDelayed k f args kwargs =>
      λ w, match w_cache w !! k with
           | Some v => (Ok v, w)
           | None =>
               (let* args' := mapM compute_obj args in
                let* kwargs' := dict_mapM compute_obj kwargs in
                let* v := call_fn f args' kwargs' in
                λ w', (Ok v, set_cache (<[k := v]> (w_cache w')) w')) w
           end
  | PBagFromDelayed d =>
      let* v := compute_obj d in
      let* rows := lift (py_list v) in
      ret (PList rows)
  | PBagMap f args kwargs =>
      let operand_of (a : obj) : M operand :=
        if is_Bag a then
          let* v := compute_obj a in
          let* rows := lift (py_list v) in
          ret (Rows rows)
        else match a with
             | PDelayed _ _ _ _ => let* v := compute_obj a in ret (Scalar v)
             | _ => ret (Scalar a)
             end in
      let* args' := mapM operand_of args in
      let* kwargs' := dict_mapM operand_of kwargs in
      match row_counts args' kwargs' with
      | [] => raise ValueError
      | n :: rest =>
          if forallb (Nat.eqb n) rest then
            let* rows := mapM (λ i, call_fn f (pick i <$> args') (pick i <$> kwargs'))
                              (seq 0 n) in
            ret (PList rows)
          else raise ValueError
      end
  | _ => ret o
  end.

(** [dask.compute] of some arguments: one evaluation, with a memo table of its own,
    of all the arguments; the results come as a tuple. *)
Definition dask_compute (args : list obj) : M (list obj) :=
  λ w, mapM compute_obj args (set_cache ∅ w).
End Local.

(** ** SynchronousExecutor *)

Module SynchronousExecutor.
Section Methods.
Variable E : env.
Variable H : helpers.

(** The dictionary comprehension [needs_bagging]: every value of [maps]
    that is not a bag becomes
    [dask.bag.from_delayed(dask.delayed(state_to_list)(v))]. *)
Definition needs_bagging (maps : dict) : M dict :=
  map_fold (λ k v (acc : M dict),
              let* nb := acc in
              if is_Bag v then ret nb
              else let* d := Delayed_call E state_to_list [v] ∅ false in
                   ret (<[k := PBagFromDelayed d]> nb))
           (ret ∅) maps.

(** [map(self, fn, *args, maps=None, upstream_states=None, **kwargs)].
    Besides the bag that the Python method returns, the final contents of
    the two dictionaries of the caller, which the method updates in
    place, are returned (they are taken to be two distinct objects). *)
Definition map (fn : func) (args : list obj) (maps upstream_states : option dict)
    (kwargs : dict) : M (obj * dict * dict) :=
  match maps with
  | None => raise AttributeError
  | Some maps =>
      let '(mapped_non_keyed, maps) := pop_None maps in
      match upstream_states with
      | None => raise AttributeError
      | Some upstream_states =>
          let '(non_keyed, upstream_states) := pop_None upstream_states in
          let* needs_bagging := needs_bagging maps in
          let maps := update maps needs_bagging in
          let upstream_states := update upstream_states maps in
          let* mapped := lift (py_truthy mapped_non_keyed) in
          let* (other, upstreams) :=
            (if mapped : bool then
               let* upstreams := create_bagged_list H mapped_non_keyed non_keyed in
               ret ([], upstreams)
             else
               let* other := lift (py_list non_keyed) in
               ret (other, PNone)) in
          let* states := lift (as_kwargs upstream_states) in
          let* _ := lift (match states !! Some "upstreams" with
                          | Some _ => Raise TypeError
                          | None => Ok ()
                          end) in
          let* bagged_states :=
            lift (bag_map unpack_dict_to_bag other
                          (<[Some "upstreams" := upstreams]> states)) in
          let* bag := lift (bag_map fn args
                              (<[Some "upstream_states" := bagged_states]> kwargs)) in
          ret (bag, maps, upstream_states)
      end
  end.

(** [submit(self, fn, *args, **kwargs)] *)
Definition submit (fn : func) (args : list obj) (kwargs : dict) : M obj :=
  Delayed_call E fn args kwargs false.

(** [wait(self, futures, timeout=None)]: [dask.compute(futures)] and the
    first component of its tuple. *)
Definition wait (futures : obj) (timeout : option nat) : M obj :=
  let* computed := dask_compute E [futures] in
  match computed with
  | first :: _ => ret first
  | [] => raise TypeError
  end.
End Methods.
End SynchronousExecutor.

(** ** A concrete environment

    Used to run the model on examples: a handful of task functions, the two
    helper functions that dask calls by reference, a structural hash, and a
    network on which every scheduler can be reached. *)
Module Demo.

(** A structural hash of objects, for the tokens of pure calls. *)
Fixpoint hash (o : obj) : nat :=
  match o with
  | PNone => 1
  | PInt z => 2 + Z.abs_nat z
  | PStr s => 3 + String.length s
  | PList xs => foldr (λ x acc, 5 + hash x + 3 * acc) 7 xs
  | PTuple xs => foldr (λ x acc, 6 + hash x + 3 * acc) 11 xs
  | PDict d => map_fold (λ _ v acc, hash v + acc) 13 d
  | PFuture (Uuid n) | PFuture (Token n) => 17 + n
  | PDelayed _ _ args _ => foldr (λ x acc, 8 + hash x + 3 * acc) 19 args
  | PBagFromDelayed d => 23 + hash d
  | PBagMap _ args _ => foldr (λ x acc, 9 + hash x + 3 * acc) 29 args
  end.

(** Modelled from the spec: [state_to_list] of prefect.utilities.executors,
    whose code is not in [dask.py] ("converting state containers to
    sequences", "each element becomes a row"): a list of states is passed
    through as the sequence of its elements. *)
Definition state_to_list_fn (args : list obj) : result obj :=
  match args with
  | [PList xs] => Ok (PList xs)
  | _ => Raise TypeError
  end.

(** Modelled from the spec: [unpack_dict_to_bag] of
    prefect.utilities.executors, whose code is not in [dask.py]: it
    "unpacks the combined upstream-state row back into the keyed/non-keyed
    mapping shape expected by fn". The non-keyed values of the row (the
    positional arguments, or else the [upstreams] row) go under [None], the
    keyed ones under their keys. *)
Definition unpack_dict_to_bag_fn (other : list obj) (kwargs : dict) : result obj :=
  let keyed := delete (Some "upstreams") kwargs in
  match other, kwargs !! Some "upstreams" with
  | [], Some (PList xs) | [], Some (PTuple xs) => Ok (PDict (<[None := PList xs]> keyed))
  | _, _ => Ok (PDict (<[None := PList other]> keyed))
  end.

(** Modelled from the spec: the row function of [create_bagged_list], which
    puts the mapped values of a row in front of the broadcast ones. *)
Definition to_bag_fn (args : list obj) (kwargs : dict) : result obj :=
  match kwargs !! Some "x" with
  | Some x => py_list_add args x
  | None => Raise TypeError
  end.

(** The functions that the example tasks run, with the ticks they take. *)
Definition apply_fn (f : func) (args : list obj) (kwargs : dict) : nat * result obj :=
  if String.eqb f "add" then
    match args with
    | [PInt a; PInt b] => (1, Ok (PInt (a + b)))
    | _ => (1, Raise TypeError)
    end
  else if String.eqb f "mul" then
    match args with
    | [PInt a; PInt b] => (1, Ok (PInt (a * b)))
    | _ => (1, Raise TypeError)
    end
  else if String.eqb f "sleep" then
    (* sleeps for its first argument, returns its second *)
    match args with
    | [PInt n; v] => (Z.to_nat n, Ok v)
    | _ => (0, Raise TypeError)
    end
  else if String.eqb f "fail" then (1, Raise (TaskError "failed"))
  else if String.eqb f "count_non_keyed" then
    (* the number of non-keyed upstream states that the task was given *)
    match kwargs !! Some "upstream_states" with
    | Some (PDict d) =>
        match d !! None with
        | Some (PList xs) => (1, Ok (PInt (Z.of_nat (length xs))))
        | _ => (1, Raise TypeError)
        end
    | _ => (1, Raise TypeError)
    end
  else if String.eqb f "to_bag" then (0, to_bag_fn args kwargs)
  else if String.eqb f state_to_list then (0, state_to_list_fn args)
  else if String.eqb f unpack_dict_to_bag then (0, unpack_dict_to_bag_fn args kwargs)
  else (0, Raise (TaskError "unknown function")).

Definition env : env :=
  Env apply_fn
      (λ f args kwargs, String.length f + hash (PList args) + hash (PDict kwargs))
      (λ _, true).

(** Modelled from the spec: [dict_to_list] of prefect.utilities.executors,
    whose code is not in [dask.py]. "Each child receives the i-th
    element of every mapped input": row [i] maps every key of [maps] to the
    i-th element of its list, and [None], when mapped non-keyed inputs are
    present, to the tuple of their i-th elements. Converting [None] fails. *)
Definition dict_to_list (maps : option dict) : result (list dict) :=
  match maps with
  | None => Raise AttributeError
  | Some maps =>
      let '(mapped_non_keyed, keyed) := pop_None maps in
      let? non_keyed := py_list mapped_non_keyed in
      let? non_keyed := rmapM py_list non_keyed in
      let? keyed := dict_rmapM py_list keyed in
      let n := list_max ((length <$> non_keyed) ++ (length <$> (map_to_list keyed).*2)) in
      Ok ((λ i, let row := omap (λ xs : list obj, xs !! i) keyed in
                match non_keyed with
                | [] => row
                | _ => <[None := PTuple ((λ xs, default PNone (xs !! i)) <$> non_keyed)]> row
                end) <$> seq 0 n)
  end.

(** Modelled from the spec: [create_bagged_list] of
    prefect.utilities.executors, whose code is not in [dask.py]:
    "a helper that interleaves mapped rows with broadcast (repeated)
    non-mapped values". Every mapped input that is not a bag is bagged, and
    the rows of the bags are listed in front of the non-mapped values. *)
Definition create_bagged_list (mapped unmapped : obj) : M obj :=
  let* inputs := lift (py_list mapped) in
  let* bags := mapM (λ s, if is_Bag s then ret s
                          else let* d := Delayed_call env state_to_list [s] ∅ false in
                               ret (PBagFromDelayed d)) inputs in
  lift (bag_map "to_bag" bags {[Some "x" := unmapped]}).

Definition helpers : helpers := Helpers dict_to_list create_bagged_list.

(** An executor inside its [start] scope, and the process state there. *)
Definition client0 : Client := mkClient 0.
Definition executor0 : DaskExecutor.executor :=
  DaskExecutor.Executor None false ∅ (Some client0).
Definition started : world := set_sessions {[0]} 1 world0.

(** The state after [submit(sleep, 5, 42)]: a task that needs five ticks. *)
Definition slow : world :=
  (DaskExecutor.submit env executor0 "sleep" [PInt 5; PInt 42] ∅ started).2.

(** Dictionaries whose only entry is a keyed value that is a bag already. *)
Definition bags : dict :=
  {[Some "x" := PBagFromDelayed (PDelayed (Uuid 0) state_to_list [PList [PInt 1; PInt 2]] ∅)]}.

(** A mapped call over one keyed collection of three elements, with one
    non-keyed upstream state to broadcast. *)
Definition keyed_maps : dict := {[Some "x" := PList [PInt 1; PInt 2; PInt 3]]}.
Definition broadcast : dict := {[None := PList [PInt 7]]}.

(** Three tasks submitted in a row that complete after five, one and three
    ticks: the second is ready first, the first last. *)
Definition staggered : world :=
  let w1 := (DaskExecutor.submit env executor0 "sleep" [PInt 5; PInt 10] ∅ started).2 in
  let w2 := (DaskExecutor.submit env executor0 "sleep" [PInt 1; PInt 20] ∅ w1).2 in
  (DaskExecutor.submit env executor0 "sleep" [PInt 3; PInt 30] ∅ w2).2.
End Demo.

(** ** The remaining methods of the two executors *)

(** A cluster queue as [DaskExecutor.queue] asks for it: its bound and the
    client it is tied to ([None]: left to the default of the library). *)
Record ClusterQueue := mkClusterQueue {
  cq_maxsize : Z;
  cq_client : option Client }.

(** [DaskExecutor.queue(self, maxsize=0, client=None)]: the queue is created
    with [client or self.client]; a client object is always true. *)
Definition DaskExecutor_queue (self : DaskExecutor.executor) (maxsize : Z)
    (client : option Client) : ClusterQueue :=
  mkClusterQueue maxsize
    (match client with
     | Some c => Some c
     | None => DaskExecutor.client self
     end).

(** A [queue.Queue] of the standard library: its bound and its items. *)
Record LocalQueue := mkLocalQueue {
  lq_maxsize : Z;
  lq_items : list obj }.

(** [SynchronousExecutor.queue(self, maxsize=0)]: a new, empty queue. *)
Definition SynchronousExecutor_queue (maxsize : Z) : LocalQueue :=
  mkLocalQueue maxsize [].

(** The configuration of dask: its settings by name. *)
Abbreviation config := (gmap string string).

(** [SynchronousExecutor.start], a context manager, applied to the body of
    the caller's [with] block. [dask.config.set(scheduler="synchronous")]
    sets the scheduler for the time of the block and yields the
    configuration; on the way out, whether the body returned or raised, it
    puts back the setting it found (or removes the one it added). *)
Definition SynchronousExecutor_start {A}
    (body : config → world → result A * config * world)
    (cfg : config) (w : world) : result A * config * world :=
  let old := cfg !! "scheduler" in
  let '(r, cfg', w') := body (<["scheduler" := "synchronous"]> cfg) w in
  (r,
   match old with
   | Some v => <["scheduler" := v]> cfg'
   | None => delete "scheduler" cfg'
   end,
   w').

(** ** Observations used in the statements *)




(** An object without lazy nodes: the local engine leaves it as it is. *)
Definition concrete (E : env) (o : obj) : Prop := ∀ w, compute_obj E o w = (Ok o, w).

(** The bag that [SynchronousExecutor.map] builds for a value that is not a
    bag; [n] is the uuid of its [Delayed] node. *)
Definition bagged (n : nat) (v : obj) : obj :=
  PBagFromDelayed (PDelayed (Uuid n) state_to_list [v] ∅).

(** The non-keyed upstream states that the task behind a future was given. *)
Definition child_non_keyed (w : world) (future : obj) : option obj :=
  match future with
  | PFuture k =>
      t ← w_tasks w !! k;
      u ← t_kwargs t !! Some "upstream_states";
      match u with
      | PDict d => d !! None
      | _ => None
      end
  | _ => None
  end.

(** The successive contents of the [upstream_states] dictionary of [mapper]
    at its calls of [client.submit], one per mapped element: the dictionary
    steps of the loop without the submissions. *)
Fixpoint child_states (non_keyed : obj) (states : list dict) (upstream_states : dict) :
    result (list dict) :=
  match states with
  | [] => Ok []
  | elem :: rest =>
      let upstream_states := update upstream_states elem in
      let? cur := py_list (default (PList []) (upstream_states !! None)) in
      let? new := py_list_add cur non_keyed in
      let upstream_states := <[None := new]> upstream_states in
      let? others := child_states non_keyed rest upstream_states in
      Ok (upstream_states :: others)
  end.

(** The future of the child task that [mapper] submits with the dictionary
    [u]: the nested client submits pure calls, keyed by their token. *)
Definition child_future (E : env) (fn : func) (args : list obj) (kwargs u : dict) : obj :=
  PFuture (Token (tokenize E fn args (<[Some "upstream_states" := PDict u]> kwargs))).

(** * Properties *)

(** ** Basic facts about the monads *)


Lemma mapM_cons {A B} (f : A → M B) x xs :
  mapM f (x :: xs) = let* y := f x in let* ys := mapM f xs in ret (y :: ys).
Proof. reflexivity. Qed.





(** ** The scope of [DaskExecutor.start] *)

Lemma Client_close_not_open cl w : is_open cl (Client_close cl w) = false.
Proof.
  unfold is_open, Client_close, set_sessions; simpl.
  apply bool_decide_eq_false.
  intros [_ Hne]%elem_of_difference. apply Hne. by apply elem_of_singleton.
Qed.

(** C8: after the scope of [DaskExecutor.start], whether the body returned or
    raised, and also when the connection itself failed, the executor's client
    reference is cleared and the session that was opened is closed; every
    later [submit] on that executor raises (an [AttributeError], on the
    missing client) and leaves the process state as it was. The outcome of
    the scope is the outcome of its body. *)
Theorem start_releases_client (E : env) (A : Type) (self : DaskExecutor.executor)
    (body : Client → DaskExecutor.executor → world →
            result A * DaskExecutor.executor * world) (w : world) :
  let '(r, self', w') := DaskExecutor.start E self body w in
  DaskExecutor.client self' = None ∧
  (∀ cl w1, Client_new E (DaskExecutor.address self) (DaskExecutor.processes self) w
              = (Ok cl, w1) →
            is_open cl w' = false ∧
            r = (body cl (DaskExecutor.set_client (Some cl) self) w1).1.1) ∧
  (∀ fn args kwargs w'',
     DaskExecutor.submit E self' fn args kwargs w'' = (Raise AttributeError, w'')).
Proof.
  unfold DaskExecutor.start.
  destruct (Client_new E _ _ w) as [[cl|e] w1] eqn:Hnew.
  - destruct (body cl _ w1) as [[r self2] w2] eqn:Hbody.
    split; [done|]. split; [|done].
    intros cl' w1' Heq. inversion Heq; subst. rewrite Hbody.
    split; [apply Client_close_not_open|done].
  - split; [done|]. split; [|done]. intros cl' w1' Heq. inversion Heq.
Qed.

(** A body that raises: its exception leaves the scope, the client is gone. *)
Example start_body_raises :
  let '(r, self', w') :=
    DaskExecutor.start Demo.env (DaskExecutor.init None false ∅)
      (λ cl self w, (Raise (TaskError "body") : result obj, self, w)) world0 in
  r = Raise (TaskError "body") ∧ DaskExecutor.client self' = None ∧
  w_sessions w' = ∅ ∧
  (DaskExecutor.submit Demo.env self' "add" [PInt 2; PInt 3] ∅ w').1 = Raise AttributeError.
Proof. vm_compute. done. Qed.

(** Inside the scope the executor does accept submissions. *)
Example submit_inside_scope :
  (DaskExecutor.start Demo.env (DaskExecutor.init None false ∅)
     (λ cl self w,
        let '(r, w') := DaskExecutor.submit Demo.env self "add" [PInt 2; PInt 3] ∅ w in
        (r, self, w')) world0).1.1 = Ok (PFuture (Uuid 0)).
Proof. reflexivity. Qed.

(** ** [wait] and its timeout *)

(** C2: [DaskExecutor.wait] does not hand its timeout to [gather]. On a
    future that needs five ticks and a timeout of one tick, the backend's
    [gather] raises [TimeoutError] after one tick, whereas [wait] blocks for
    the five ticks and returns the value; and for every input [wait] with a
    timeout is [wait] without one. *)
Theorem DaskExecutor_wait_drops_timeout :
  Client_gather Demo.client0 (PList [PFuture (Uuid 0)]) (Some 1) Demo.slow
    = (Raise TimeoutError, set_now 1 Demo.slow) ∧
  DaskExecutor.wait Demo.executor0 (PList [PFuture (Uuid 0)]) (Some 1) Demo.slow
    = (Ok (PList [PInt 42]), set_now 5 Demo.slow) ∧
  (∀ self futures timeout w,
     DaskExecutor.wait self futures timeout w = DaskExecutor.wait self futures None w).
Proof. split; [|split]; [vm_compute; reflexivity..|]. intros. reflexivity. Qed.

Lemma SynchronousExecutor_wait_compute E futures timeout w :
  SynchronousExecutor.wait E futures timeout w = compute_obj E futures (set_cache ∅ w).
Proof.
  unfold SynchronousExecutor.wait, dask_compute, bind, ret. simpl.
  unfold bind, ret. by destruct (compute_obj E futures (set_cache ∅ w)) as [[v|e] w'].
Qed.

(** C6: [SynchronousExecutor.wait] accepts a timeout and ignores it: for any
    two timeouts the outcome and the final state are the same, and they are
    those of the complete evaluation of the given collection. *)
Theorem SynchronousExecutor_wait_ignores_timeout (E : env) (futures : obj)
    (t1 t2 : option nat) (w : world) :
  SynchronousExecutor.wait E futures t1 w = SynchronousExecutor.wait E futures t2 w ∧
  SynchronousExecutor.wait E futures t1 w = compute_obj E futures (set_cache ∅ w).
Proof. split; [reflexivity|]. apply SynchronousExecutor_wait_compute. Qed.

(** A task that takes five ticks is waited for, whatever the timeout. *)
Example SynchronousExecutor_wait_slow :
  SynchronousExecutor.submit Demo.env "sleep" [PInt 5; PInt 42] ∅ world0
    = (Ok (PDelayed (Uuid 0) "sleep" [PInt 5; PInt 42] ∅), set_uuid 1 world0) ∧
  let '(r, w') := SynchronousExecutor.wait Demo.env
                    (PList [PDelayed (Uuid 0) "sleep" [PInt 5; PInt 42] ∅]) (Some 1)
                    (set_uuid 1 world0) in
  r = Ok (PList [PInt 42]) ∧ w_now w' = 5.
Proof. vm_compute. done. Qed.

(** ** [map] on missing dictionaries *)

Lemma SynchronousExecutor_map_None E H fn args maps upstream_states kwargs w :
  maps = None ∨ upstream_states = None →
  SynchronousExecutor.map E H fn args maps upstream_states kwargs w
    = (Raise AttributeError, w).
Proof.
  intros [-> | ->]; [done|]. unfold SynchronousExecutor.map.
  destruct maps as [maps|]; [|done]. by destruct (pop_None maps).
Qed.

Lemma mapper_None E H cl maps fn args upstream_states kwargs w :
  is_Raise (dict_to_list H None) →
  maps = None ∨ upstream_states = None →
  ∃ e, DaskExecutor.mapper E H cl maps fn args upstream_states kwargs w = (Raise e, w).
Proof.
  intros [e He] Hnone. unfold DaskExecutor.mapper.
  destruct upstream_states as [us|]; [|by exists AttributeError].
  destruct Hnone as [-> | ?]; [|done].
  destruct (pop_None us) as [non_keyed us']. exists e.
  unfold bind, lift. by rewrite He.
Qed.

(** C10: [maps] and [upstream_states] default to [None], and with either of
    them left at [None] both [map] methods raise instead of returning:
    [SynchronousExecutor.map] on its first [pop], [DaskExecutor.map] because
    its organizer fails on [upstream_states.pop] or on the conversion of
    [maps] (given that [dict_to_list] rejects [None]). *)
Theorem map_requires_dictionaries (E : env) (H : helpers)
    (self : DaskExecutor.executor) (fn : func) (args : list obj)
    (maps upstream_states : option dict) (kwargs : dict) (w : world) :
  is_Raise (dict_to_list H None) →
  maps = None ∨ upstream_states = None →
  (SynchronousExecutor.map E H fn args maps upstream_states kwargs w).1
    = Raise AttributeError ∧
  is_Raise (DaskExecutor.map E H self fn args maps upstream_states kwargs w).1.
Proof.
  intros Hconv Hnone. split.
  - by rewrite SynchronousExecutor_map_None.
  - unfold DaskExecutor.map. destruct (DaskExecutor.client self) as [cl|].
    + destruct (negb (is_open cl w)); [by exists ConnectionError|].
      destruct (mapper_None E H cl maps fn args upstream_states kwargs w Hconv Hnone)
        as [e ->]. by exists e.
    + by exists AttributeError.
Qed.

Lemma map_requires_dictionaries_witness :
  (SynchronousExecutor.map Demo.env Demo.helpers "add" [] None None ∅ Demo.started).1
    = Raise AttributeError ∧
  is_Raise (DaskExecutor.map Demo.env Demo.helpers Demo.executor0 "add" [] None None ∅
              Demo.started).1.
Proof.
  apply (map_requires_dictionaries Demo.env Demo.helpers Demo.executor0 "add" [] None None
           ∅ Demo.started).
  - exists AttributeError. reflexivity.
  - left. reflexivity.
Defined.

(** With both dictionaries given, the same calls return. *)
Example map_with_dictionaries :
  is_Ok (SynchronousExecutor.map Demo.env Demo.helpers "add" []
           (Some {[Some "x" := PList [PInt 1; PInt 2]]}) (Some ∅) ∅ Demo.started).1 ∧
  is_Ok (DaskExecutor.map Demo.env Demo.helpers Demo.executor0 "add" []
           (Some {[Some "x" := PList [PInt 1; PInt 2]]}) (Some ∅) ∅ Demo.started).1.
Proof. split; eexists; vm_compute; reflexivity. Qed.

(** ** The order of the values returned by [wait] *)




Lemma SynchronousExecutor_wait_list E (ds : list obj) timeout w :
  SynchronousExecutor.wait E (PList ds) timeout w =
    match mapM (compute_obj E) ds (set_cache ∅ w) with
    | (Ok vs, w') => (Ok (PList vs), w')
    | (Raise e, w') => (Raise e, w')
    end.
Proof.
  rewrite SynchronousExecutor_wait_compute. simpl. unfold bind, ret.
  by destruct (mapM (compute_obj E) ds (set_cache ∅ w)) as [[vs|e] w'].
Qed.



(** Tasks that complete in the order second, third, first are still reported
    in the order in which their futures are listed. *)
Example wait_staggered :
  ready_at (w_results Demo.staggered) <$> [Uuid 0; Uuid 1; Uuid 2] = [5; 1; 3] ∧
  (DaskExecutor.wait Demo.executor0 (PList (PFuture <$> [Uuid 0; Uuid 1; Uuid 2])) None
     Demo.staggered).1 = Ok (PList [PInt 10; PInt 20; PInt 30]) ∧
  (DaskExecutor.wait Demo.executor0 (PList (PFuture <$> [Uuid 2; Uuid 0; Uuid 1])) None
     Demo.staggered).1 = Ok (PList [PInt 30; PInt 10; PInt 20]) ∧
  (SynchronousExecutor.wait Demo.env
     (PList [PDelayed (Uuid 0) "sleep" [PInt 5; PInt 10] ∅;
             PDelayed (Uuid 1) "sleep" [PInt 1; PInt 20] ∅]) None world0).1
    = Ok (PList [PInt 10; PInt 20]).
Proof. vm_compute. done. Qed.

(** ** Independent submissions *)

Lemma run_task_sessions E k t w : w_sessions (run_task E k t w) = w_sessions w.
Proof. unfold run_task. by repeat case_match. Qed.

Lemma run_task_uuid E k t w : w_uuid (run_task E k t w) = w_uuid w.
Proof. unfold run_task. by repeat case_match. Qed.





Lemma mapM_concrete (E : env) (xs : list obj) (w : world) :
  concrete E (PList xs) → mapM (compute_obj E) xs w = (Ok xs, w).
Proof.
  intros Hc. specialize (Hc w). simpl in Hc. unfold bind, ret in Hc.
  destruct (mapM (compute_obj E) xs w) as [[ys|e] w']; by simplify_eq.
Qed.

Lemma dict_mapM_concrete (E : env) (d : dict) (w : world) :
  concrete E (PDict d) → dict_mapM (compute_obj E) d w = (Ok d, w).
Proof.
  intros Hc. specialize (Hc w). simpl in Hc. unfold bind, ret in Hc.
  destruct (dict_mapM (compute_obj E) d w) as [[ys|e] w']; by simplify_eq.
Qed.




(** A pure submission, by contrast, is coalesced by the backend: the second
    call returns the key of the first and nothing more is run. *)
Example pure_submit_coalesces :
  let '(f1, w1) := Client_submit Demo.env Demo.client0 "add" [PInt 2; PInt 3] ∅ true
                     Demo.started in
  let '(f2, w2) := Client_submit Demo.env Demo.client0 "add" [PInt 2; PInt 3] ∅ true w1 in
  f1 = f2 ∧ length (w_log w2) = 1.
Proof. vm_compute. done. Qed.

(** The methods under test, on the same calls: two keys, two executions. *)
Example submit_twice :
  let '(f1, w1) := DaskExecutor.submit Demo.env Demo.executor0 "add" [PInt 2; PInt 3] ∅
                     Demo.started in
  let '(f2, w2) := DaskExecutor.submit Demo.env Demo.executor0 "add" [PInt 2; PInt 3] ∅ w1 in
  f1 = Ok (PFuture (Uuid 0)) ∧ f2 = Ok (PFuture (Uuid 1)) ∧ length (w_log w2) = 2 ∧
  (DaskExecutor.wait Demo.executor0 (PList [PFuture (Uuid 0); PFuture (Uuid 1)]) None w2).1
    = Ok (PList [PInt 5; PInt 5]).
Proof. vm_compute. done. Qed.

(** The scenario of the specification: [A = add(2, 3)], [B = mul(A, 10)]. *)
Example wait_add_mul :
  let '(_, w1) := DaskExecutor.submit Demo.env Demo.executor0 "add" [PInt 2; PInt 3] ∅
                    Demo.started in
  let '(_, w2) := DaskExecutor.submit Demo.env Demo.executor0 "mul"
                    [PFuture (Uuid 0); PInt 10] ∅ w1 in
  (DaskExecutor.wait Demo.executor0 (PList [PFuture (Uuid 0); PFuture (Uuid 1)]) None w2).1
    = Ok (PList [PInt 5; PInt 50]) ∧
  (SynchronousExecutor.wait Demo.env
     (PList [PDelayed (Uuid 0) "add" [PInt 2; PInt 3] ∅;
             PDelayed (Uuid 1) "mul" [PDelayed (Uuid 0) "add" [PInt 2; PInt 3] ∅; PInt 10] ∅])
     None world0).1 = Ok (PList [PInt 5; PInt 50]).
Proof. vm_compute. done. Qed.

(** ** The dictionaries of [SynchronousExecutor.map] *)

Lemma set_uuid_same w : set_uuid (w_uuid w) w = w.
Proof. by destruct w. Qed.

Lemma needs_bagging_spec (E : env) (maps : dict) (w : world) :
  ∃ nb n, SynchronousExecutor.needs_bagging E maps w = (Ok nb, set_uuid n w) ∧
          w_uuid w ≤ n ∧
          ∀ k, match maps !! k with
               | Some v => if is_Bag v then nb !! k = None
                           else ∃ i, nb !! k = Some (bagged i v)
               | None => nb !! k = None
               end.
Proof.
  revert w. unfold SynchronousExecutor.needs_bagging.
  apply (map_fold_weak_ind (λ (r : M dict) (m : dict), ∀ w,
    ∃ nb n, r w = (Ok nb, set_uuid n w) ∧ w_uuid w ≤ n ∧
            ∀ k, match m !! k with
                 | Some v => if is_Bag v then nb !! k = None
                             else ∃ i, nb !! k = Some (bagged i v)
                 | None => nb !! k = None
                 end)).
  - intros w. exists ∅, (w_uuid w). rewrite set_uuid_same.
    split; [done|]. split; [done|]. intros k. by rewrite !lookup_empty.
  - intros i x m r Hfresh IH w.
    destruct (IH w) as (nb & n & Hr & Hle & Hspec).
    unfold bind. rewrite Hr. destruct (is_Bag x) eqn:Hbag.
    + exists nb, n. split; [done|]. split; [done|]. intros k.
      destruct (decide (i = k)) as [<-|Hne].
      * rewrite lookup_insert_eq, Hbag. specialize (Hspec i). by rewrite Hfresh in Hspec.
      * rewrite lookup_insert_ne by done. apply Hspec.
    + exists (<[i := bagged n x]> nb), (S n). split; [done|]. split; [simpl; lia|].
      intros k. destruct (decide (i = k)) as [<-|Hne].
      * rewrite !lookup_insert_eq, Hbag. by exists n.
      * rewrite !lookup_insert_ne by done. apply Hspec.
Qed.

(** What a successful call leaves in the two dictionaries of the caller. *)
Lemma SynchronousExecutor_map_dicts (E : env) (H : helpers) (fn : func) (args : list obj)
    (maps upstream_states kwargs : dict) (w : world)
    (bag : obj) (maps' upstream_states' : dict) (w' : world) :
  SynchronousExecutor.map E H fn args (Some maps) (Some upstream_states) kwargs w
    = (Ok (bag, maps', upstream_states'), w') →
  ∃ nb n, SynchronousExecutor.needs_bagging E (delete None maps) w = (Ok nb, set_uuid n w) ∧
          maps' = update (delete None maps) nb ∧
          upstream_states' = update (delete None upstream_states) maps'.
Proof.
  unfold SynchronousExecutor.map, pop_None.
  destruct (needs_bagging_spec E (delete None maps) w) as (nb & n & Hnb & _ & _).
  unfold bind at 1. rewrite Hnb. intros Hmap. exists nb, n. split; [done|].
  unfold bind, lift, ret in Hmap.
  repeat case_match; simplify_eq; done.
Qed.

Lemma dict_mapM_empty {A B} (f : A → M B) : dict_mapM f ∅ = ret ∅.
Proof. unfold dict_mapM. by rewrite map_fold_empty. Qed.

(** The rows of the bag built for [v] are the elements of the list that
    [state_to_list] returns on the value of [v]. *)
Lemma bagged_rows (E : env) (n : nat) (v v' out : obj) (rows : list obj) (ticks : nat)
    (w w1 : world) :
  w_cache w !! Uuid n = None →
  compute_obj E v w = (Ok v', w1) →
  apply_fn E state_to_list [v'] ∅ = (ticks, Ok out) →
  py_list out = Ok rows →
  (compute_obj E (bagged n v) w).1 = Ok (PList rows).
Proof.
  intros Hmiss Hv Hf Hrows. unfold bagged.
  change (compute_obj E (PBagFromDelayed ?d)) with
    (let* x := compute_obj E d in let* rows := lift (py_list x) in ret (PList rows)).
  unfold bind at 1.
  change (compute_obj E (PDelayed ?k ?f ?a ?kw) w) with
    (match w_cache w !! k with
     | Some x => (Ok x, w)
     | None =>
         (let* args' := mapM (compute_obj E) a in
          let* kwargs' := dict_mapM (compute_obj E) kw in
          let* x := call_fn E f args' kwargs' in
          λ w', (Ok x, set_cache (<[k := x]> (w_cache w')) w')) w
     end).
  rewrite Hmiss, mapM_cons. unfold bind at 1. unfold bind at 1. rewrite Hv.
  simpl mapM. unfold bind at 1. unfold ret at 1. unfold ret at 1.
  rewrite dict_mapM_empty. unfold bind at 1. unfold ret at 1.
  unfold bind at 1. unfold call_fn. rewrite Hf.
  unfold bind, lift, ret. by rewrite Hrows.
Qed.

(** C7: in [SynchronousExecutor.map], a keyed value of [maps] that is a bag
    is kept as it is, and one that is not a bag is replaced by
    [from_delayed(delayed(state_to_list)(v))], a bag whose rows are the
    elements of the list that [state_to_list] returns on the value of [v];
    the same collections are stored under the same keys of
    [upstream_states]. *)
Theorem map_bags_keyed_values (E : env) (H : helpers) (fn : func) (args : list obj)
    (maps upstream_states kwargs : dict) (w : world)
    (bag : obj) (maps' upstream_states' : dict) (w' : world) :
  SynchronousExecutor.map E H fn args (Some maps) (Some upstream_states) kwargs w
    = (Ok (bag, maps', upstream_states'), w') →
  ∀ (s : string) (v : obj), maps !! Some s = Some v →
    if is_Bag v
    then maps' !! Some s = Some v ∧ upstream_states' !! Some s = Some v
    else ∃ n, maps' !! Some s = Some (bagged n v) ∧
              upstream_states' !! Some s = Some (bagged n v) ∧
              ∀ v' out rows ticks w0 w1,
                w_cache w0 !! Uuid n = None →
                compute_obj E v w0 = (Ok v', w1) →
                apply_fn E state_to_list [v'] ∅ = (ticks, Ok out) →
                py_list out = Ok rows →
                (compute_obj E (bagged n v) w0).1 = Ok (PList rows).
Proof.
  intros Hmap s v Hs.
  destruct (SynchronousExecutor_map_dicts _ _ _ _ _ _ _ _ _ _ _ _ Hmap)
    as (nb & n & Hnb & -> & ->).
  destruct (needs_bagging_spec E (delete None maps) w) as (nb' & n' & Hnb' & _ & Hspec).
  rewrite Hnb in Hnb'. simplify_eq. specialize (Hspec (Some s)).
  rewrite lookup_delete_ne, Hs in Hspec by done.
  unfold update. destruct (is_Bag v).
  - assert ((nb' ∪ delete None maps) !! Some s = Some v) as Hm.
    { rewrite lookup_union_r by done. by rewrite lookup_delete_ne. }
    split; [done|]. by rewrite (lookup_union_Some_l _ _ _ _ Hm).
  - destruct Hspec as [i Hi]. exists i.
    assert ((nb' ∪ delete None maps) !! Some s = Some (bagged i v)) as Hm.
    { by rewrite (lookup_union_Some_l _ _ _ _ Hi). }
    split; [done|]. split; [by rewrite (lookup_union_Some_l _ _ _ _ Hm)|].
    intros v' out rows ticks w0 w1. apply bagged_rows.
Qed.

Lemma map_bags_keyed_values_witness :
  ∃ bag maps' upstream_states' w',
    SynchronousExecutor.map Demo.env Demo.helpers "count_non_keyed" []
      (Some {[Some "x" := PList [PInt 1; PInt 2]]}) (Some {[None := PList [PInt 7]]}) ∅
      world0 = (Ok (bag, maps', upstream_states'), w') ∧
    ∃ n, maps' !! Some "x" = Some (bagged n (PList [PInt 1; PInt 2])) ∧
         upstream_states' !! Some "x" = Some (bagged n (PList [PInt 1; PInt 2])) ∧
         (compute_obj Demo.env (bagged n (PList [PInt 1; PInt 2])) world0).1
           = Ok (PList [PInt 1; PInt 2]).
Proof.
  destruct (SynchronousExecutor.map Demo.env Demo.helpers "count_non_keyed" []
              (Some {[Some "x" := PList [PInt 1; PInt 2]]})
              (Some {[None := PList [PInt 7]]}) ∅ world0)
    as [[[[bag maps'] us']|e] w'] eqn:Hmap.
  - exists bag, maps', us', w'. split; [reflexivity|].
    pose proof (map_bags_keyed_values _ _ _ _ _ _ _ _ _ _ _ _ Hmap
                  "x" (PList [PInt 1; PInt 2]) eq_refl) as Hx.
    simpl in Hx. destruct Hx as (n & Hm & Hu & Hrows). exists n.
    split; [exact Hm|]. split; [exact Hu|].
    eapply Hrows; reflexivity.
  - vm_compute in Hmap. discriminate Hmap.
Defined.

(** ** The fan-out of [DaskExecutor.map] *)

Lemma mapper_loop_cons (E : env) (cl : Client) (fn : func) (args : list obj)
    (kwargs : dict) (non_keyed : obj) (elem : dict) (rest : list dict)
    (upstream_states : dict) (futures : list obj) :
  DaskExecutor.mapper_loop E cl fn args kwargs non_keyed (elem :: rest)
    upstream_states futures =
  (let upstream_states := update upstream_states elem in
   let* cur := lift (py_list (default (PList []) (upstream_states !! None))) in
   let* new := lift (py_list_add cur non_keyed) in
   let upstream_states := <[None := new]> upstream_states in
   let* fut := Client_submit E cl fn args
                 (<[Some "upstream_states" := PDict upstream_states]> kwargs) true in
   DaskExecutor.mapper_loop E cl fn args kwargs non_keyed rest upstream_states
     (futures ++ [fut])).
Proof. reflexivity. Qed.



(** ** What [map] does to the dictionaries it is given *)


(** The same for the organizer of [DaskExecutor.map] when nothing is mapped. *)
Example mapper_can_leave_upstream_states_unchanged :
  ∃ w', DaskExecutor.mapper Demo.env Demo.helpers Demo.client0 (Some ∅) "add" []
          (Some Demo.bags) ∅ Demo.started = (Ok ([], Demo.bags), w').
Proof. eexists. vm_compute. reflexivity. Qed.



(** The loop of [mapper] submits one task per element of [child_states], in
    order, and ends with the last of these dictionaries. *)
Lemma mapper_loop_child_states (E : env) (cl : Client) (fn : func) (args : list obj)
    (kwargs : dict) (non_keyed : obj) (states : list dict) :
  ∀ (upstream_states : dict) (futures : list obj) (w : world) (children : list dict),
  child_states non_keyed states upstream_states = Ok children →
  DaskExecutor.mapper_loop E cl fn args kwargs non_keyed states upstream_states futures w =
    (let* new := mapM (λ u, Client_submit E cl fn args
                              (<[Some "upstream_states" := PDict u]> kwargs) true)
                      children in
     ret (futures ++ new, default upstream_states (last children))) w.
Proof.
  induction states as [|elem rest IH]; intros us futs w children Hch.
  - simpl in Hch. simplify_eq. simpl. unfold bind, ret. by rewrite app_nil_r.
  - simpl in Hch. rewrite mapper_loop_cons. cbv zeta.
    destruct (py_list _) as [cur|e] eqn:Hcur; [|done]. simpl in Hch.
    destruct (py_list_add cur non_keyed) as [new|e] eqn:Hnew; [|done]. simpl in Hch.
    destruct (child_states non_keyed rest _) as [others|e] eqn:Hrest; [|done].
    simpl in Hch. simplify_eq.
    rewrite mapM_cons. unfold bind, lift. cbv beta iota. rewrite Hnew. cbv beta iota.
    destruct (Client_submit E cl fn args _ true w) as [[fut|e] w1]; [|done].
    rewrite (IH _ _ _ _ Hrest). unfold bind, ret.
    destruct (mapM _ others w1) as [[new'|e] w2]; [|done].
    rewrite <- app_assoc. simpl. do 3 f_equal.
    rewrite last_cons. by destruct (last others).
Qed.

Lemma child_states_accumulate (nk : list obj) (states : list dict) :
  Forall (λ elem : dict, elem !! None = None) states →
  ∀ (upstream_states : dict) (acc : list obj),
  py_list (default (PList []) (upstream_states !! None)) = Ok acc →
  ∃ children, child_states (PList nk) states upstream_states = Ok children ∧
              length children = length states ∧
              ∀ i u, children !! i = Some u →
                     u !! None = Some (PList (acc ++ concat (replicate (S i) nk))).
Proof.
  induction 1 as [|elem rest Helem _ IH]; intros us acc Hacc.
  - exists []. by split.
  - simpl. unfold update. rewrite lookup_union_r by done. rewrite Hacc. simpl.
    destruct (IH (<[None := PList (acc ++ nk)]> (elem ∪ us)) (acc ++ nk))
      as (others & -> & Hlen & Hothers).
    { by rewrite lookup_insert_eq. }
    simpl. eexists. split; [done|]. split; [simpl; by rewrite Hlen|].
    intros [|i] u Hu; simpl in Hu.
    + simplify_eq. rewrite lookup_insert_eq. simpl. by rewrite app_nil_r.
    + rewrite (Hothers i u Hu). by rewrite <- app_assoc.
Qed.

(** X3: When no mapped element carries a [None] entry, the i-th child task is
    submitted with i+1 copies of the non-keyed list: the [None] entry written
    for one child is read back for the next. *)
Lemma mapper_children_accumulate (E : env) (H : helpers) (cl : Client)
    (maps : option dict) (fn : func) (args : list obj)
    (upstream_states kwargs : dict) (nk : list obj) (states : list dict) (w : world) :
  upstream_states !! None = Some (PList nk) →
  dict_to_list H maps = Ok states →
  Forall (λ elem : dict, elem !! None = None) states →
  ∃ children,
    DaskExecutor.mapper E H cl maps fn args (Some upstream_states) kwargs w =
      (let* new := mapM (λ u, Client_submit E cl fn args
                                (<[Some "upstream_states" := PDict u]> kwargs) true)
                        children in
       ret (new, default (delete None upstream_states) (last children))) w ∧
    length children = length states ∧
    ∀ i u, children !! i = Some u →
           u !! None = Some (PList (concat (replicate (S i) nk))).
Proof.
  intros Hnk Hstates Hkeyed.
  destruct (child_states_accumulate nk states Hkeyed (delete None upstream_states) [])
    as (children & Hch & Hlen & Hacc).
  { by rewrite lookup_delete_eq. }
  exists children. split; [|done].
  unfold DaskExecutor.mapper, pop_None. rewrite Hnk. simpl default.
  unfold bind at 1, lift at 1. rewrite Hstates.
  by rewrite (mapper_loop_child_states E cl fn args kwargs _ _ _ [] w children Hch).
Qed.

(** C1: on a keyed collection of three elements with the non-keyed list
    [[7]], the three child tasks that [DaskExecutor.map] submits are given
    [[7]], [[7, 7]] and [[7, 7, 7]] under the [None] key of their
    [upstream_states]: the broadcast accumulates from one child to the
    next. *)
Theorem mapper_accumulates_broadcast :
  ∃ f0 f1 f2 w',
    DaskExecutor.map Demo.env Demo.helpers Demo.executor0 "count_non_keyed" []
      (Some Demo.keyed_maps) (Some Demo.broadcast) ∅ Demo.started
    = (Ok (PList [f0; f1; f2]), w') ∧
    child_non_keyed w' f0 = Some (PList [PInt 7]) ∧
    child_non_keyed w' f1 = Some (PList [PInt 7; PInt 7]) ∧
    child_non_keyed w' f2 = Some (PList [PInt 7; PInt 7; PInt 7]).
Proof. do 4 eexists. split; [vm_compute; reflexivity|]. vm_compute. done. Qed.

(** With mapped non-keyed inputs every element carries a [None] entry of its
    own and each child is given one copy of the broadcast after it. *)
Example mapper_non_keyed_maps :
  ∃ f0 f1 w',
    DaskExecutor.map Demo.env Demo.helpers Demo.executor0 "count_non_keyed" []
      (Some {[None := PList [PList [PInt 1; PInt 2]]]}) (Some Demo.broadcast) ∅ Demo.started
    = (Ok (PList [f0; f1]), w') ∧
    child_non_keyed w' f0 = Some (PList [PInt 1; PInt 7]) ∧
    child_non_keyed w' f1 = Some (PList [PInt 2; PInt 7]).
Proof. do 3 eexists. split; [vm_compute; reflexivity|]. vm_compute. done. Qed.

(** C4: [DaskExecutor.map] returns one future per mapped element, but the
    futures do not resolve to [fn] applied to the element and the broadcast:
    with [fn] counting the non-keyed upstream states it is given, the three
    futures of the call above resolve to 1, 2 and 3, whereas [fn] on the
    third element with the broadcast [[7]] gives 1, and so does every row of
    [SynchronousExecutor.map] on the same arguments. *)
Theorem DaskExecutor_map_children_differ :
  (∃ futures w',
     DaskExecutor.map Demo.env Demo.helpers Demo.executor0 "count_non_keyed" []
       (Some Demo.keyed_maps) (Some Demo.broadcast) ∅ Demo.started = (Ok futures, w') ∧
     (DaskExecutor.wait Demo.executor0 futures None w').1
       = Ok (PList [PInt 1; PInt 2; PInt 3])) ∧
  (apply_fn Demo.env "count_non_keyed" []
     {[Some "upstream_states" := PDict {[Some "x" := PInt 3; None := PList [PInt 7]]}]}).2
    = Ok (PInt 1) ∧
  (∃ bag maps' upstream_states' w',
     SynchronousExecutor.map Demo.env Demo.helpers "count_non_keyed" []
       (Some Demo.keyed_maps) (Some Demo.broadcast) ∅ Demo.started
       = (Ok (bag, maps', upstream_states'), w') ∧
     (SynchronousExecutor.wait Demo.env bag None w').1
       = Ok (PList [PInt 1; PInt 1; PInt 1])).
Proof.
  split; [|split].
  - do 2 eexists. split; [vm_compute; reflexivity|]. vm_compute. reflexivity.
  - vm_compute. reflexivity.
  - do 4 eexists. split; [vm_compute; reflexivity|]. vm_compute. reflexivity.
Qed.



(** * Further properties *)

(** ** The dictionaries of the child tasks of [DaskExecutor.map] *)



(** Each dictionary of [child_states] is the previous one (the initial one
    for the first element), updated with the element and given a new [None]
    entry: the list under [None] after the update, followed by the non-keyed
    list. *)
Lemma child_states_steps (non_keyed : obj) (states : list dict) :
  ∀ (d0 : dict) (children : list dict),
  child_states non_keyed states d0 = Ok children →
  length children = length states ∧
  (∀ elem u, states !! 0 = Some elem → children !! 0 = Some u →
     ∃ cur new, py_list (default (PList []) ((elem ∪ d0) !! None)) = Ok cur ∧
                py_list_add cur non_keyed = Ok new ∧
                u = <[None := new]> (elem ∪ d0)) ∧
  (∀ i elem u u', states !! S i = Some elem → children !! i = Some u →
     children !! S i = Some u' →
     ∃ cur new, py_list (default (PList []) ((elem ∪ u) !! None)) = Ok cur ∧
                py_list_add cur non_keyed = Ok new ∧
                u' = <[None := new]> (elem ∪ u)).
Proof.
  induction states as [|elem0 rest IH]; intros d0 children Hch.
  - simpl in Hch. simplify_eq. by repeat split.
  - simpl in Hch. unfold update in Hch.
    destruct (py_list _) as [cur|e] eqn:Hcur; [|done]. simpl in Hch.
    destruct (py_list_add cur non_keyed) as [new|e] eqn:Hnew; [|done]. simpl in Hch.
    destruct (child_states non_keyed rest _) as [others|e] eqn:Hrest; [|done].
    simpl in Hch. simplify_eq.
    destruct (IH _ _ Hrest) as (Hlen & Hfirst & Hnext).
    split; [simpl; by rewrite Hlen|]. split.
    + intros elem u Helem Hu. simpl in Helem, Hu. simplify_eq. by exists cur, new.
    + intros [|i] elem u u' Helem Hu Hu'; simpl in Helem, Hu, Hu'.
      * simplify_eq. by apply Hfirst.
      * by eapply Hnext.
Qed.

(** The body of the organizer, once its dictionaries are known: one pure
    submission per dictionary of [child_states]. *)
Lemma mapper_via_child_states (E : env) (H : helpers) (cl : Client)
    (maps : option dict) (fn : func) (args : list obj)
    (upstream_states kwargs : dict) (states children : list dict) (w : world) :
  dict_to_list H maps = Ok states →
  child_states (default (PList []) (upstream_states !! None)) states
    (delete None upstream_states) = Ok children →
  DaskExecutor.mapper E H cl maps fn args (Some upstream_states) kwargs w =
    (let* new := mapM (λ u, Client_submit E cl fn args
                              (<[Some "upstream_states" := PDict u]> kwargs) true)
                      children in
     ret (new, default (delete None upstream_states) (last children))) w.
Proof.
  intros Hstates Hch. unfold DaskExecutor.mapper, pop_None.
  unfold bind at 1, lift at 1. rewrite Hstates.
  by rewrite (mapper_loop_child_states E cl fn args kwargs _ _ _ [] w children Hch).
Qed.

Lemma run_task_now (E : env) (k : key) (t : task) (w : world) :
  w_now (run_task E k t w) = w_now w.
Proof. unfold run_task. by repeat case_match. Qed.

(** Submitting the children: every call returns the future of its token, the
    session stays open, the clock and the uuid supply are not touched. *)
Lemma submit_children (E : env) (cl : Client) (fn : func) (args : list obj)
    (kwargs : dict) (children : list dict) :
  ∀ w : world, is_open cl w = true →
  ∃ w', mapM (λ u, Client_submit E cl fn args
                     (<[Some "upstream_states" := PDict u]> kwargs) true) children w
        = (Ok (child_future E fn args kwargs <$> children), w') ∧
        is_open cl w' = true ∧ w_now w' = w_now w ∧ w_uuid w' = w_uuid w.
Proof.
  induction children as [|u rest IH]; intros w Hopen.
  - exists w. by repeat split.
  - rewrite mapM_cons. unfold bind at 1. unfold Client_submit at 1. rewrite Hopen.
    simpl negb. cbv iota.
    set (k := Token (tokenize E fn args (<[Some "upstream_states" := PDict u]> kwargs))).
    destruct (w_tasks w !! k) as [t|] eqn:Hk.
    + destruct (IH w Hopen) as (w' & Hrest & Hopen' & Hnow & Huuid).
      exists w'. unfold bind, ret. rewrite Hrest. by repeat split.
    + set (w1 := run_task E k _ w).
      assert (is_open cl w1 = true) as Hopen1.
      { unfold is_open, w1. by rewrite run_task_sessions. }
      destruct (IH w1 Hopen1) as (w' & Hrest & Hopen' & Hnow & Huuid).
      exists w'. unfold bind, ret. rewrite Hrest.
      split; [done|]. split; [done|]. unfold w1 in Hnow, Huuid.
      by rewrite run_task_now in Hnow; rewrite run_task_uuid in Huuid.
Qed.

Lemma child_states_lookup (non_keyed : obj) (states children : list dict) (d0 : dict)
    (i : nat) (elem u : dict) :
  child_states non_keyed states d0 = Ok children →
  states !! i = Some elem → children !! i = Some u →
  ∃ prev cur new,
    match i with
    | 0 => prev = d0
    | S j => children !! j = Some prev
    end ∧
    py_list (default (PList []) ((elem ∪ prev) !! None)) = Ok cur ∧
    py_list_add cur non_keyed = Ok new ∧
    u = <[None := new]> (elem ∪ prev).
Proof.
  intros Hch Helem Hu.
  destruct (child_states_steps _ _ _ _ Hch) as (Hlen & Hfirst & Hnext).
  destruct i as [|j].
  - destruct (Hfirst _ _ Helem Hu) as (cur & new & ? & ? & ?). by exists d0, cur, new.
  - destruct (lookup_lt_is_Some_2 children j) as [prev Hprev].
    { apply lookup_lt_Some in Hu. lia. }
    destruct (Hnext _ _ _ _ Helem Hprev Hu) as (cur & new & ? & ? & ?).
    by exists prev, cur, new.
Qed.



(** Two equal elements in a row give two equal dictionaries, when the
    element has a [None] entry of its own or nothing is broadcast. *)
Lemma child_states_repeat (nk : list obj) (states children : list dict) (d0 : dict)
    (i : nat) (elem u u' : dict) :
  child_states (PList nk) states d0 = Ok children →
  states !! i = Some elem → states !! S i = Some elem →
  children !! i = Some u → children !! S i = Some u' →
  is_Some (elem !! None) ∨ nk = [] →
  u' = u.
Proof.
  intros Hch Helem Helem' Hu Hu' Hcase.
  destruct (child_states_lookup _ _ _ _ _ _ _ Hch Helem Hu)
    as (prev & cur & new & _ & Hcur & Hnew & Hueq).
  destruct (child_states_lookup _ _ _ _ _ _ _ Hch Helem' Hu')
    as (prev' & cur' & new' & Hprev' & Hcur' & Hnew' & Hueq').
  simpl in Hprev'. rewrite Hu in Hprev'. simplify_eq.
  simpl in Hnew, Hnew'. simplify_eq.
  assert (cur' ++ nk = cur ++ nk) as Hsame.
  { destruct Hcase as [[o Ho] | ->].
    - rewrite (lookup_union_Some_l _ _ _ _ Ho) in Hcur.
      rewrite (lookup_union_Some_l _ _ _ _ Ho) in Hcur'.
      rewrite Hcur in Hcur'. by simplify_eq.
    - rewrite !app_nil_r in *. destruct (elem !! None) as [o|] eqn:Ho.
      + rewrite (lookup_union_Some_l _ _ _ _ Ho) in Hcur.
        rewrite (lookup_union_Some_l _ _ _ _ Ho) in Hcur'.
        rewrite Hcur in Hcur'. by simplify_eq.
      + rewrite (lookup_union_r elem) in Hcur' by done.
        rewrite lookup_insert_eq in Hcur'. simpl in Hcur'. by simplify_eq. }
  rewrite Hsame. apply map_eq. intros [s|].
  - rewrite !lookup_insert_ne by done.
    destruct (elem !! Some s) as [v|] eqn:Hs.
    + by rewrite !(lookup_union_Some_l _ _ _ _ Hs).
    + rewrite (lookup_union_r elem (<[None := _]> _)) by done.
      by rewrite lookup_insert_ne.
  - by rewrite !lookup_insert_eq.
Qed.

(** ** The futures of [DaskExecutor.map] *)



(** When a dictionary step fails, so does the loop. *)
Lemma mapper_loop_child_states_raise (E : env) (cl : Client) (fn : func)
    (args : list obj) (kwargs : dict) (non_keyed : obj) (states : list dict) :
  ∀ (d : dict) (futures : list obj) (w : world) (e : exn),
  child_states non_keyed states d = Raise e →
  is_Raise (DaskExecutor.mapper_loop E cl fn args kwargs non_keyed states d futures w).1.
Proof.
  induction states as [|elem rest IH]; intros d futs w e Hch; [done|].
  rewrite mapper_loop_cons. cbv zeta. simpl in Hch. unfold bind, lift. cbv beta iota.
  destruct (py_list _) as [cur|e0]; [|by eexists]. simpl in Hch. cbv beta iota.
  destruct (py_list_add cur non_keyed) as [new|e0]; [|by eexists].
  simpl in Hch. cbv beta iota.
  destruct (Client_submit E cl fn args _ true w) as [[fut|e1] w2]; [|by eexists].
  destruct (child_states non_keyed rest _) as [others|e2] eqn:Hrest; [done|].
  by eapply IH.
Qed.

(** X6: the children of [map] are coalesced by value. Two equal mapped
    elements in a row get one and the same future, when the element has a
    [None] entry of its own or when there are no non-keyed upstream states
    (otherwise the growing broadcast keeps their calls apart). *)
Theorem DaskExecutor_map_coalesces (E : env) (H : helpers) (self : DaskExecutor.executor)
    (fn : func) (args : list obj) (maps : option dict)
    (upstream_states kwargs : dict) (nk : list obj) (states : list dict)
    (i : nat) (elem : dict) (futures : list obj) (w w' : world) :
  default (PList []) (upstream_states !! None) = PList nk →
  dict_to_list H maps = Ok states →
  states !! i = Some elem → states !! S i = Some elem →
  is_Some (elem !! None) ∨ nk = [] →
  DaskExecutor.map E H self fn args maps (Some upstream_states) kwargs w
    = (Ok (PList futures), w') →
  is_Some (futures !! i) ∧ futures !! S i = futures !! i.
Proof.
  intros Hnk Hstates Helem Helem' Hcase Hmap.
  unfold DaskExecutor.map in Hmap.
  destruct (DaskExecutor.client self) as [cl'|] eqn:Hcl; [|done].
  destruct (is_open cl' w) eqn:Hopen; cbn [negb] in Hmap; [|done].
  destruct (child_states (PList nk) states (delete None upstream_states))
    as [children|e] eqn:Hch.
  - rewrite <- Hnk in Hch.
    rewrite (mapper_via_child_states E H cl' maps fn args upstream_states kwargs
               states children w Hstates Hch) in Hmap.
    destruct (submit_children E cl' fn args kwargs children w Hopen)
      as (w1 & Hsub & _).
    unfold bind, ret in Hmap. rewrite Hsub in Hmap. simplify_eq.
    rewrite Hnk in Hch.
    destruct (child_states_steps _ _ _ _ Hch) as (Hlen & _).
    destruct (lookup_lt_is_Some_2 children (S i)) as [u' Hu'].
    { rewrite Hlen. by eapply lookup_lt_Some. }
    destruct (lookup_lt_is_Some_2 children i) as [u Hu].
    { apply lookup_lt_Some in Hu'. lia. }
    rewrite !list_lookup_fmap, Hu, Hu'. split; [by eexists|].
    by rewrite (child_states_repeat nk states children (delete None upstream_states)
                  i elem u u').
  - exfalso. unfold DaskExecutor.mapper, pop_None in Hmap. rewrite Hnk in Hmap.
    unfold bind at 1, lift at 1 in Hmap. rewrite Hstates in Hmap.
    destruct (mapper_loop_child_states_raise E cl' fn args kwargs (PList nk) states
                (delete None upstream_states) [] w e Hch) as [e' He'].
    destruct (DaskExecutor.mapper_loop E cl' fn args kwargs (PList nk) states
                (delete None upstream_states) [] w) as [[[fs us']|e''] w1]; done.
Qed.

Lemma DaskExecutor_map_coalesces_witness :
  ∃ futures w',
    DaskExecutor.map Demo.env Demo.helpers Demo.executor0 "add" []
      (Some {[Some "x" := PList [PInt 1; PInt 1]]}) (Some ∅) ∅ Demo.started
      = (Ok (PList futures), w') ∧
    is_Some (futures !! 0) ∧ futures !! 1 = futures !! 0.
Proof.
  assert (∃ futures w',
            DaskExecutor.map Demo.env Demo.helpers Demo.executor0 "add" []
              (Some {[Some "x" := PList [PInt 1; PInt 1]]}) (Some ∅) ∅ Demo.started
            = (Ok (PList futures), w')) as (futures & w' & Hmap).
  { vm_compute. do 2 eexists. reflexivity. }
  exists futures, w'. split; [exact Hmap|].
  apply (DaskExecutor_map_coalesces Demo.env Demo.helpers Demo.executor0 "add" []
           (Some {[Some "x" := PList [PInt 1; PInt 1]]}) ∅ ∅ []
           [{[Some "x" := PInt 1]}; {[Some "x" := PInt 1]}] 0 {[Some "x" := PInt 1]}
           futures Demo.started w').
  - reflexivity.
  - vm_compute. reflexivity.
  - reflexivity.
  - reflexivity.
  - right. reflexivity.
  - exact Hmap.
Defined.

(** Two equal elements, nothing to broadcast: one task, run once. *)
Example map_equal_elements_run_once :
  ∃ f w',
    DaskExecutor.map Demo.env Demo.helpers Demo.executor0 "add" []
      (Some {[Some "x" := PList [PInt 1; PInt 1]]}) (Some ∅) ∅ Demo.started
      = (Ok (PList [f; f]), w') ∧
    size (w_tasks w') = 1.
Proof. do 2 eexists. split; vm_compute; reflexivity. Qed.



(** The key that the second element lacks still holds the value of the first. *)
Example child_keeps_previous_key :
  child_states (PList []) [{[Some "x" := PInt 1; Some "y" := PInt 5]}; {[Some "x" := PInt 2]}]
    ∅ = Ok [<[None := PList []]> {[Some "x" := PInt 1; Some "y" := PInt 5]};
            <[None := PList []]> {[Some "x" := PInt 2; Some "y" := PInt 5]}].
Proof. vm_compute. reflexivity. Qed.

Lemma mapper_children_accumulate_witness :
  ∃ children : list dict,
    length children = 3 ∧
    ∀ (i : nat) (u : dict), children !! i = Some u →
           u !! None = Some (PList (concat (replicate (S i) [PInt 7]))).
Proof.
  destruct (mapper_children_accumulate Demo.env Demo.helpers Demo.client0
              (Some Demo.keyed_maps) "count_non_keyed" [] Demo.broadcast ∅ [PInt 7]
              [{[Some "x" := PInt 1]}; {[Some "x" := PInt 2]}; {[Some "x" := PInt 3]}]
              Demo.started) as (children & _ & Hlen & Hacc).
  - reflexivity.
  - vm_compute. reflexivity.
  - repeat constructor.
  - exists children. split; [exact Hlen | exact Hacc].
Defined.


(** ** Edge cases of [DaskExecutor.map] *)





(** ** [submit] followed by [wait] *)




(** X10: [DaskExecutor.wait] only reads the results: the tasks, the results,
    the log and the uuid supply are as before, and waiting again for the same
    futures gives the same outcome. *)
Theorem DaskExecutor_wait_reads_only (self : DaskExecutor.executor) (futures : obj)
    (t1 t2 : option nat) (w : world) :
  let '(r, w1) := DaskExecutor.wait self futures t1 w in
  w_tasks w1 = w_tasks w ∧ w_results w1 = w_results w ∧ w_log w1 = w_log w ∧
  w_uuid w1 = w_uuid w ∧ w_sessions w1 = w_sessions w ∧
  (DaskExecutor.wait self futures t2 w1).1 = r.
Proof.
  unfold DaskExecutor.wait. destruct (DaskExecutor.client self) as [cl|]; [|done].
  unfold Client_gather, is_open. destruct (bool_decide _) eqn:Hopen; simpl.
  - by rewrite Hopen.
  - by rewrite Hopen.
Qed.

Lemma compute_delayed_run (E : env) (k : key) (f : func) (args : list obj)
    (kwargs : dict) (w : world) :
  concrete E (PList args) → concrete E (PDict kwargs) →
  w_cache w !! k = None →
  compute_obj E (PDelayed k f args kwargs) w =
    let w1 := add_log (Task f args kwargs)
                (set_now (w_now w + (apply_fn E f args kwargs).1) w) in
    match (apply_fn E f args kwargs).2 with
    | Ok v => (Ok v, set_cache (<[k := v]> (w_cache w)) w1)
    | Raise e => (Raise e, w1)
    end.
Proof.
  intros Ha Hk Hmiss. simpl. rewrite Hmiss. unfold bind.
  rewrite (mapM_concrete E args w Ha), (dict_mapM_concrete E kwargs w Hk).
  unfold call_fn. by destruct (apply_fn E f args kwargs) as [ticks [v|e]].
Qed.

Lemma compute_delayed_hit (E : env) (k : key) (f : func) (args : list obj)
    (kwargs : dict) (v : obj) (w : world) :
  w_cache w !! k = Some v → compute_obj E (PDelayed k f args kwargs) w = (Ok v, w).
Proof. intros Hhit. simpl. by rewrite Hhit. Qed.



(** X12: [SynchronousExecutor.wait] keeps nothing from one call to the next:
    waiting twice for the same lazy node runs its function twice. *)
Theorem SynchronousExecutor_wait_recomputes (E : env) (k : key) (fn : func)
    (args : list obj) (kwargs : dict) (t1 t2 : option nat) (w : world) :
  concrete E (PList args) → concrete E (PDict kwargs) →
  let '(r1, w1) := SynchronousExecutor.wait E (PDelayed k fn args kwargs) t1 w in
  let '(r2, w2) := SynchronousExecutor.wait E (PDelayed k fn args kwargs) t2 w1 in
  r1 = (apply_fn E fn args kwargs).2 ∧ r2 = (apply_fn E fn args kwargs).2 ∧
  w_log w2 = w_log w ++ [Task fn args kwargs; Task fn args kwargs].
Proof.
  intros Ha Hk. rewrite SynchronousExecutor_wait_compute.
  rewrite (compute_delayed_run E _ fn args kwargs _ Ha Hk) by apply lookup_empty.
  cbv zeta. destruct (apply_fn E fn args kwargs) as [ticks [v|e]] eqn:Hf; simpl.
  - rewrite SynchronousExecutor_wait_compute.
    rewrite (compute_delayed_run E _ fn args kwargs _ Ha Hk) by apply lookup_empty.
    rewrite Hf. simpl. by rewrite <- app_assoc.
  - rewrite SynchronousExecutor_wait_compute.
    rewrite (compute_delayed_run E _ fn args kwargs _ Ha Hk) by apply lookup_empty.
    rewrite Hf. simpl. by rewrite <- app_assoc.
Qed.

Lemma SynchronousExecutor_wait_recomputes_witness :
  let '(r1, w1) := SynchronousExecutor.wait Demo.env
                     (PDelayed (Uuid 0) "add" [PInt 2; PInt 3] ∅) None world0 in
  let '(r2, w2) := SynchronousExecutor.wait Demo.env
                     (PDelayed (Uuid 0) "add" [PInt 2; PInt 3] ∅) None w1 in
  r1 = Ok (PInt 5) ∧ r2 = Ok (PInt 5) ∧
  w_log w2 = [Task "add" [PInt 2; PInt 3] ∅; Task "add" [PInt 2; PInt 3] ∅].
Proof.
  apply (SynchronousExecutor_wait_recomputes Demo.env (Uuid 0) "add" [PInt 2; PInt 3] ∅
           None None world0); intros w; reflexivity.
Defined.

(** X13: within one [wait], a lazy node that is listed twice is run once and
    its value is used for both places. *)
Theorem SynchronousExecutor_wait_runs_node_once (E : env) (k : key) (fn : func)
    (args : list obj) (kwargs : dict) (timeout : option nat) (ticks : nat) (v : obj)
    (w : world) :
  concrete E (PList args) → concrete E (PDict kwargs) →
  apply_fn E fn args kwargs = (ticks, Ok v) →
  let '(r, w1) := SynchronousExecutor.wait E
                    (PList [PDelayed k fn args kwargs; PDelayed k fn args kwargs])
                    timeout w in
  r = Ok (PList [v; v]) ∧ w_log w1 = w_log w ++ [Task fn args kwargs] ∧
  w_now w1 = w_now w + ticks.
Proof.
  intros Ha Hk Hf. rewrite SynchronousExecutor_wait_list, !mapM_cons. unfold bind.
  rewrite (compute_delayed_run E _ fn args kwargs _ Ha Hk) by apply lookup_empty.
  rewrite Hf. cbv zeta beta iota. simpl snd. simpl fst. cbv beta iota.
  rewrite (compute_delayed_hit E k fn args kwargs v) by apply lookup_insert_eq.
  done.
Qed.

Lemma SynchronousExecutor_wait_runs_node_once_witness :
  let '(r, w1) := SynchronousExecutor.wait Demo.env
                    (PList [PDelayed (Uuid 0) "add" [PInt 2; PInt 3] ∅;
                            PDelayed (Uuid 0) "add" [PInt 2; PInt 3] ∅]) None world0 in
  r = Ok (PList [PInt 5; PInt 5]) ∧
  w_log w1 = w_log world0 ++ [Task "add" [PInt 2; PInt 3] ∅] ∧
  w_now w1 = w_now world0 + 1.
Proof.
  apply (SynchronousExecutor_wait_runs_node_once Demo.env (Uuid 0) "add"
           [PInt 2; PInt 3] ∅ None 1 (PInt 5) world0);
    [intros w; reflexivity | intros w; reflexivity | reflexivity].
Defined.

(** ** The scopes of the two executors *)


(** X15: after the scope of [DaskExecutor.start], [map] and [wait] raise
    [AttributeError] like [submit], without touching the process state, and a
    queue asked for without a client is tied to none. *)
Theorem start_leaves_executor_unusable (E : env) (H : helpers) (A : Type)
    (self : DaskExecutor.executor)
    (body : Client → DaskExecutor.executor → world →
            result A * DaskExecutor.executor * world) (w : world) :
  let '(_, self', _) := DaskExecutor.start E self body w in
  (∀ fn args maps upstream_states kwargs w0,
     DaskExecutor.map E H self' fn args maps upstream_states kwargs w0
       = (Raise AttributeError, w0)) ∧
  (∀ futures timeout w0,
     DaskExecutor.wait self' futures timeout w0 = (Raise AttributeError, w0)) ∧
  (∀ maxsize, cq_client (DaskExecutor_queue self' maxsize None) = None).
Proof.
  unfold DaskExecutor.start.
  destruct (Client_new E _ _ w) as [[cl|e] w1]; [|done].
  by destruct (body cl _ w1) as [[r self2] w2].
Qed.

(** X16: a queue created in the body of [DaskExecutor.start] without a client
    is tied to the client of the scope, and that client is open at that
    moment; a client given to [queue] is used instead. *)
Theorem queue_inside_scope (E : env) (self : DaskExecutor.executor) (maxsize : Z)
    (other : Client) (w : world) :
  reachable E (DaskExecutor.address self) = true →
  let '(r, _, _) :=
    DaskExecutor.start E self
      (λ cl s w0, (Ok (DaskExecutor_queue s maxsize None,
                       DaskExecutor_queue s maxsize (Some other),
                       is_open cl w0), s, w0)) w in
  r = Ok (mkClusterQueue maxsize (Some (mkClient (w_next_session w))),
          mkClusterQueue maxsize (Some other), true).
Proof.
  intros Hreach. unfold DaskExecutor.start, Client_new. rewrite Hreach.
  do 3 f_equal. unfold is_open. simpl. apply bool_decide_eq_true.
  by apply elem_of_union_l, elem_of_singleton.
Qed.

Lemma queue_inside_scope_witness :
  let '(r, _, _) :=
    DaskExecutor.start Demo.env (DaskExecutor.init None false ∅)
      (λ cl s w0, (Ok (DaskExecutor_queue s 0 None,
                       DaskExecutor_queue s 0 (Some (mkClient 9)),
                       is_open cl w0), s, w0)) world0 in
  r = Ok (mkClusterQueue 0 (Some (mkClient (w_next_session world0))),
          mkClusterQueue 0 (Some (mkClient 9)), true).
Proof.
  apply (queue_inside_scope Demo.env (DaskExecutor.init None false ∅) 0 (mkClient 9)
           world0). reflexivity.
Defined.

(** X17: in the body of [SynchronousExecutor.start] the scheduler setting is
    ["synchronous"]; after the scope, whether the body returned or raised,
    the setting is what it was before (absent if it was absent), every other
    setting is as the body left it, and the outcome is that of the body. *)
Theorem SynchronousExecutor_start_restores (A : Type)
    (body : config → world → result A * config * world) (cfg : config) (w : world) :
  let '(r, cfg', w') := SynchronousExecutor_start body cfg w in
  let '(rb, cfgb, wb) := body (<["scheduler" := "synchronous"]> cfg) w in
  (<["scheduler" := "synchronous"]> cfg) !! "scheduler" = Some "synchronous" ∧
  r = rb ∧ w' = wb ∧
  cfg' !! "scheduler" = cfg !! "scheduler" ∧
  ∀ name, name ≠ "scheduler" → cfg' !! name = cfgb !! name.
Proof.
  unfold SynchronousExecutor_start.
  destruct (body (<["scheduler" := "synchronous"]> cfg) w) as [[rb cfgb] wb].
  split; [apply lookup_insert_eq|]. split; [done|]. split; [done|].
  destruct (cfg !! "scheduler") as [old|] eqn:Hold.
  - split; [apply lookup_insert_eq|]. intros name Hname. by rewrite lookup_insert_ne.
  - split; [apply lookup_delete_eq|]. intros name Hname. by rewrite lookup_delete_ne.
Qed.

(** ** [SynchronousExecutor.map]: what it needs and what it builds *)


(** The dictionaries after the bagging step, for every key. *)
Lemma bagging_lookup (E : env) (maps upstream_states nb : dict) (n : nat) (w : world)
    (k : option string) :
  SynchronousExecutor.needs_bagging E (delete None maps) w = (Ok nb, set_uuid n w) →
  let maps' := update (delete None maps) nb in
  let upstream_states' := update (delete None upstream_states) maps' in
  match k with
  | None => maps' !! k = None ∧ upstream_states' !! k = None
  | Some s =>
      match maps !! k with
      | Some v => (∃ b, maps' !! k = Some b ∧ upstream_states' !! k = Some b ∧
                        is_Bag b = true)
      | None => maps' !! k = None ∧ upstream_states' !! k = upstream_states !! k
      end
  end.
Proof.
  intros Hnb. cbv zeta. unfold update.
  destruct (needs_bagging_spec E (delete None maps) w) as (nb' & n' & Hnb' & _ & Hspec).
  rewrite Hnb in Hnb'. simplify_eq. specialize (Hspec k). destruct k as [s|].
  - rewrite lookup_delete_ne in Hspec by done.
    destruct (maps !! Some s) as [v|] eqn:Hv.
    + destruct (is_Bag v) eqn:Hbag.
      * exists v. assert ((nb' ∪ delete None maps) !! Some s = Some v) as Hm.
        { rewrite lookup_union_r by done. by rewrite lookup_delete_ne. }
        split; [done|]. split; [|done]. by rewrite (lookup_union_Some_l _ _ _ _ Hm).
      * destruct Hspec as [i Hi]. exists (bagged i v).
        assert ((nb' ∪ delete None maps) !! Some s = Some (bagged i v)) as Hm.
        { by rewrite (lookup_union_Some_l _ _ _ _ Hi). }
        split; [done|]. split; [|done]. by rewrite (lookup_union_Some_l _ _ _ _ Hm).
    + assert ((nb' ∪ delete None maps) !! Some s = None) as Hm.
      { apply lookup_union_None. split; [done|]. by rewrite lookup_delete_ne. }
      split; [done|]. rewrite lookup_union_r by done. by rewrite lookup_delete_ne.
  - rewrite lookup_delete_eq in Hspec.
    assert ((nb' ∪ delete None maps) !! None = None) as Hm.
    { apply lookup_union_None. split; [done|]. apply lookup_delete_eq. }
    split; [done|]. apply lookup_union_None. split; [done|]. apply lookup_delete_eq.
Qed.



(** X19: a keyed edge called "upstreams", in [maps] or in [upstream_states],
    makes [SynchronousExecutor.map] raise: the name is taken by the keyword
    of the row function. *)
Theorem SynchronousExecutor_map_upstreams_key (E : env) (H : helpers) (fn : func)
    (args : list obj) (maps upstream_states kwargs : dict) (w : world) :
  is_Some (maps !! Some "upstreams") ∨ is_Some (upstream_states !! Some "upstreams") →
  is_Raise (SynchronousExecutor.map E H fn args (Some maps) (Some upstream_states)
              kwargs w).1.
Proof.
  intros Hkey.
  destruct (needs_bagging_spec E (delete None maps) w) as (nb & n & Hnb & _ & _).
  pose proof (bagging_lookup E maps upstream_states nb n w (Some "upstreams") Hnb) as Hup.
  cbv zeta in Hup.
  assert (is_Some (update (delete None upstream_states) (update (delete None maps) nb)
                     !! Some "upstreams")) as [u Hu].
  { destruct (maps !! Some "upstreams") as [v|].
    - destruct Hup as (b & _ & -> & _). by eexists.
    - destruct Hup as [_ ->]. by destruct Hkey as [[? ?]|?]. }
  unfold SynchronousExecutor.map, pop_None. unfold bind at 1. rewrite Hnb.
  unfold bind at 1, lift at 1.
  destruct (py_truthy _) as [mapped|e]; [|by eexists].
  unfold bind at 1.
  assert (∀ (m : M (list obj * obj)) (k : list obj * obj → M (obj * dict * dict)),
            (∀ p w0, is_Raise (k p w0).1) →
            is_Raise ((let* p := m in k p) (set_uuid n w)).1) as Hbind.
  { intros m k Hk. unfold bind. destruct (m (set_uuid n w)) as [[p|e] w0]; [|by eexists].
    apply Hk. }
  apply Hbind. intros [other upstreams] w0.
  unfold bind at 1, lift at 1. unfold as_kwargs.
  destruct (_ !! None); [by eexists|].
  unfold bind at 1, lift at 1. rewrite Hu. by eexists.
Qed.

Lemma SynchronousExecutor_map_upstreams_key_witness :
  is_Raise (SynchronousExecutor.map Demo.env Demo.helpers "add" []
              (Some {[Some "upstreams" := PList [PInt 1; PInt 2]]}) (Some ∅) ∅ world0).1.
Proof.
  apply (SynchronousExecutor_map_upstreams_key Demo.env Demo.helpers "add" []
           {[Some "upstreams" := PList [PInt 1; PInt 2]]} ∅ ∅ world0).
  left. eexists. reflexivity.
Defined.

(** Under any other name the same call returns. *)
Example map_other_key_returns :
  is_Ok (SynchronousExecutor.map Demo.env Demo.helpers "add" []
           (Some {[Some "upstream" := PList [PInt 1; PInt 2]]}) (Some ∅) ∅ world0).1.
Proof. eexists. vm_compute. reflexivity. Qed.
